(** * Substring search (Boyer-Moore, KMP, Rabin-Karp) and a binary search

    A shallow embedding of [task_03/task_03.py] and [task_02.py].

    Python values are modelled as follows:
    - [int] is [Z]; [%] is [Z.modulo] (both take the sign of the divisor),
      with [ZeroDivisionError] written out;
    - a [str] is the list of its code points ([list Z]); [ord] is the
      identity on a code point;
    - a [dict] is a [gmap]; a [list] is a [list], indexed by a [Z] with
      Python's wrap-around of negative indices and [IndexError] out of range;
    - a [while] loop is a [Fixpoint] on a fuel argument; running out of fuel
      is a separate outcome, and every theorem on a result shows that the
      fuel the function passes is enough. *)

From stdpp Require Import base numbers option list gmap.
From Stdlib Require Import ZArith Lia.
From Stdlib Require String Ascii.
Import String.StringSyntax.

Local Open Scope string_scope.
Local Open Scope list_scope.
Local Open Scope Z_scope.

(** ** Outcomes of a Python call *)

Inductive exn : Type :=
  | IndexError
  | ZeroDivisionError.

Inductive result (A : Type) : Type :=
  | Ok (a : A)
  | Raise (e : exn)
  | OutOfFuel.

Arguments Ok {A} a.
Arguments Raise {A} e.
Arguments OutOfFuel {A}.

#[global] Instance result_ret : MRet result := fun _ a => Ok a.
#[global] Instance result_bind : MBind result := fun _ _ f m =>
  match m with
  | Ok a => f a
  | Raise e => Raise e
  | OutOfFuel => OutOfFuel
  end.

(** ** Python sequences *)

Module Py.

Definition len {A} (l : list A) : Z := Z.of_nat (length l).

(** [l[i]]: a negative index counts from the end. *)
Definition getitem {A} (l : list A) (i : Z) : result A :=
  let k := if i <? 0 then i + len l else i in
  if (0 <=? k) && (k <? len l) then
    match l !! Z.to_nat k with
    | Some a => Ok a
    | None => Raise IndexError
    end
  else Raise IndexError.

(** [l[i] = v] *)
Definition setitem {A} (l : list A) (i : Z) (v : A) : result (list A) :=
  let k := if i <? 0 then i + len l else i in
  if (0 <=? k) && (k <? len l) then Ok (<[Z.to_nat k := v]> l)
  else Raise IndexError.

(** A slice bound, clamped into [0, len]. *)
Definition clamp (n i : Z) : Z :=
  Z.min n (Z.max 0 (if i <? 0 then i + n else i)).

(** [l[lo:hi]] *)
Definition slice {A} (l : list A) (lo hi : Z) : list A :=
  let a := clamp (len l) lo in
  let b := clamp (len l) hi in
  take (Z.to_nat (b - a)) (drop (Z.to_nat a) l).

(** [enumerate(l)], counting from [k] *)
Fixpoint enumerate_from {A} (k : Z) (l : list A) : list (Z * A) :=
  match l with
  | [] => []
  | a :: l' => (k, a) :: enumerate_from (k + 1) l'
  end.

Definition enumerate {A} (l : list A) : list (Z * A) := enumerate_from 0 l.

(** [a % b] *)
Definition mod_ (a b : Z) : result Z :=
  if b =? 0 then Raise ZeroDivisionError else Ok (a mod b).

(** [d.setdefault(k, v)], as the resulting dictionary *)
Definition setdefault (d : gmap Z Z) (k v : Z) : gmap Z Z :=
  match d !! k with
  | Some _ => d
  | None => <[k := v]> d
  end.

(** [d.get(k, v)] *)
Definition get (d : gmap Z Z) (k v : Z) : Z :=
  match d !! k with
  | Some x => x
  | None => v
  end.

(** [ord(c)] of a code point *)
Definition ord (c : Z) : Z := c.

(** The code points of a string literal. *)
Fixpoint str (s : String.string) : list Z :=
  match s with
  | String.EmptyString => []
  | String.String a s' => Z.of_nat (Ascii.nat_of_ascii a) :: str s'
  end.

End Py.

(** ** task_03.py: polynomial_hash *)

Fixpoint polynomial_hash_loop (n base modulus : Z) (ics : list (Z * Z))
    (hash_value : Z) : result Z :=
  match ics with
  | [] => Ok hash_value
  | (i, char) :: rest =>
      power_of_base ← Py.mod_ (base ^ (n - i - 1)) modulus;
      hash_value ← Py.mod_ (hash_value + Py.ord char * power_of_base) modulus;
      polynomial_hash_loop n base modulus rest hash_value
  end.

Definition polynomial_hash (s : list Z) (base modulus : Z) : result Z :=
  let n := Py.len s in
  polynomial_hash_loop n base modulus (Py.enumerate s) 0.

(** ** task_03.py: build_shift_table and boyer_moore_search *)

Definition build_shift_table (pattern : list Z) : result (gmap Z Z) :=
  let length_ := Py.len pattern in
  let table :=
    foldl (fun (table : gmap Z Z) '(index, char) =>
             <[char := length_ - index - 1]> table)
          ∅ (Py.enumerate (Py.slice pattern 0 (-1))) in
  final ← Py.getitem pattern (-1);
  Ok (Py.setdefault table final length_).

(** The inner loop [while j >= 0 and text[i + j] == pattern[j]: j -= 1];
    the value is the final [j]. *)
Fixpoint bm_compare (fuel : nat) (text pattern : list Z) (i j : Z) : result Z :=
  match fuel with
  | O => OutOfFuel
  | S fuel =>
      if 0 <=? j then
        t ← Py.getitem text (i + j);
        p ← Py.getitem pattern j;
        if t =? p then bm_compare fuel text pattern i (j - 1) else Ok j
      else Ok j
  end.

Fixpoint bm_loop (fuel : nat) (text pattern : list Z) (shift_table : gmap Z Z)
    (pat_len text_len i : Z) : result Z :=
  match fuel with
  | O => OutOfFuel
  | S fuel =>
      if i <=? text_len - pat_len then
        j ← bm_compare (S (length pattern)) text pattern i (pat_len - 1);
        if j <? 0 then Ok i
        else
          c ← Py.getitem text (i + Py.len pattern - 1);
          bm_loop fuel text pattern shift_table pat_len text_len
                  (i + Py.get shift_table c (Py.len pattern))
      else Ok (-1)
  end.

Definition boyer_moore_search (text pattern : list Z) : result Z :=
  if bool_decide (pattern = []) || bool_decide (text = []) then Ok (-1)
  else
    shift_table ← build_shift_table pattern;
    let i := 0 in
    let pat_len := Py.len pattern in
    let text_len := Py.len text in
    bm_loop (S (length text)) text pattern shift_table pat_len text_len i.

(** ** task_03.py: compute_lps and kmp_search *)

Fixpoint lps_loop (fuel : nat) (pattern lps : list Z) (length_ i : Z)
    : result (list Z) :=
  match fuel with
  | O => OutOfFuel
  | S fuel =>
      if i <? Py.len pattern then
        pi ← Py.getitem pattern i;
        pl ← Py.getitem pattern length_;
        if pi =? pl then
          let length_ := length_ + 1 in
          lps ← Py.setitem lps i length_;
          lps_loop fuel pattern lps length_ (i + 1)
        else if negb (length_ =? 0) then
          length_ ← Py.getitem lps (length_ - 1);
          lps_loop fuel pattern lps length_ i
        else
          lps ← Py.setitem lps i 0;
          lps_loop fuel pattern lps length_ (i + 1)
      else Ok lps
  end.

Definition compute_lps (pattern : list Z) : result (list Z) :=
  let lps := replicate (length pattern) 0 in
  let length_ := 0 in
  let i := 1 in
  lps_loop (2 * length pattern + 1) pattern lps length_ i.

Fixpoint kmp_loop (fuel : nat) (text pattern lps : list Z) (M N i j : Z)
    : result Z :=
  match fuel with
  | O => OutOfFuel
  | S fuel =>
      if i <? N then
        pj ← Py.getitem pattern j;
        ti ← Py.getitem text i;
        '(i, j) ← (if pj =? ti then Ok (i + 1, j + 1)
                   else if negb (j =? 0) then
                     j ← Py.getitem lps (j - 1); Ok (i, j)
                   else Ok (i + 1, j));
        if j =? M then Ok (i - j)
        else kmp_loop fuel text pattern lps M N i j
      else Ok (-1)
  end.

Definition kmp_search (text pattern : list Z) : result Z :=
  let M := Py.len pattern in
  let N := Py.len text in
  lps ← compute_lps pattern;
  let i := 0 in
  let j := 0 in
  kmp_loop (2 * length text + 1) text pattern lps M N i j.

(** ** task_03.py: rabin_karp_search *)

(** What one round of the [for] loop does: it returns, or it goes on with
    the hash of the next window. *)
Inductive rk_outcome : Type :=
  | Return (r : Z)
  | Continue (current_slice_hash : Z).

Definition rk_body (text pattern : list Z)
    (substring_length main_string_length base modulus : Z)
    (substring_hash h_multiplier i current_slice_hash : Z)
    : result rk_outcome :=
  if (substring_hash =? current_slice_hash)
     && bool_decide (Py.slice text i (i + substring_length) = pattern)
  then Ok (Return i)
  else if i <? main_string_length - substring_length then
    ti ← Py.getitem text i;
    current_slice_hash ←
      Py.mod_ (current_slice_hash - Py.ord ti * h_multiplier) modulus;
    tn ← Py.getitem text (i + substring_length);
    current_slice_hash ←
      Py.mod_ (current_slice_hash * base + Py.ord tn) modulus;
    let current_slice_hash :=
      if current_slice_hash <? 0 then current_slice_hash + modulus
      else current_slice_hash in
    Ok (Continue current_slice_hash)
  else Ok (Continue current_slice_hash).

(** [rounds] is a ghost variable: for every round of the loop entered so
    far, latest first, its index [i] and the [current_slice_hash] it was
    entered with. *)
Fixpoint rk_for (text pattern : list Z)
    (substring_length main_string_length base modulus : Z)
    (substring_hash h_multiplier : Z) (range : list Z)
    (current_slice_hash : Z) (rounds : list (Z * Z))
    : result (Z * list (Z * Z)) :=
  match range with
  | [] => Ok (-1, rounds)
  | i :: range =>
      let rounds := (i, current_slice_hash) :: rounds in
      o ← rk_body text pattern substring_length main_string_length base
            modulus substring_hash h_multiplier i current_slice_hash;
      match o with
      | Return r => Ok (r, rounds)
      | Continue current_slice_hash =>
          rk_for text pattern substring_length main_string_length base
            modulus substring_hash h_multiplier range current_slice_hash
            rounds
      end
  end.

(** The search, with the rounds its loop has entered. *)
Definition rabin_karp_search_rounds (text pattern : list Z)
    : result (Z * list (Z * Z)) :=
  let substring_length := Py.len pattern in
  let main_string_length := Py.len text in
  if (substring_length =? 0) || (main_string_length =? 0)
     || (main_string_length <? substring_length)
  then Ok (-1, [])
  else
    let base := 256 in
    let modulus := 101 in
    substring_hash ← polynomial_hash pattern base modulus;
    current_slice_hash ←
      polynomial_hash (Py.slice text 0 substring_length) base modulus;
    h_multiplier ← Py.mod_ (base ^ (substring_length - 1)) modulus;
    rk_for text pattern substring_length main_string_length base modulus
      substring_hash h_multiplier
      (seqZ 0 (main_string_length - substring_length + 1))
      current_slice_hash [].

Definition rabin_karp_search (text pattern : list Z) : result Z :=
  r ← rabin_karp_search_rounds text pattern; Ok r.1.

(** ** Counted comparisons

    A [counting X] is a computation that may compare numbers: it takes the
    count of the comparisons performed before it and gives, with its
    value, the count after it. Only [compare_ge] changes the count. *)
Definition counting (X : Type) : Type := Z → result (X * Z).

#[global] Instance counting_ret : MRet counting := fun _ a n => Ok (a, n).
#[global] Instance counting_bind : MBind counting := fun _ _ f m n =>
  match m n with
  | Ok (a, n') => f a n'
  | Raise e => Raise e
  | OutOfFuel => OutOfFuel
  end.

(** A computation that compares nothing. *)
Definition lift {X} (r : result X) : counting X := fun n =>
  match r with
  | Ok a => Ok (a, n)
  | Raise e => Raise e
  | OutOfFuel => OutOfFuel
  end.

(** ** task_02.py: float_binary_search

    The numbers are any type with a comparison [geb a x] for [a >= x].
    The loop performs [arr[mid] >= x] as the counted comparison
    [compare_ge]; the count is that of the monad, which the loop cannot
    set. *)

Section BinarySearch.
Context {A : Type} (geb : A → A → bool).

(** [a >= x], counted. *)
Definition compare_ge (a x : A) : counting bool := fun n =>
  Ok (geb a x, n + 1).

Fixpoint bs_loop (fuel : nat) (arr : list A) (x : A)
    (low high iterations : Z) (upper_bound : option A)
    : counting (Z * option A) :=
  match fuel with
  | O => lift OutOfFuel
  | S fuel =>
      if low <=? high then
        let iterations := iterations + 1 in
        let mid := (low + high) `div` 2 in
        a ← lift (Py.getitem arr mid);
        ge ← compare_ge a x;
        if ge : bool then
          a ← lift (Py.getitem arr mid);
          bs_loop fuel arr x low (mid - 1) iterations (Some a)
        else
          bs_loop fuel arr x (mid + 1) high iterations upper_bound
      else mret (iterations, upper_bound)
  end.

(** The search, with the count of the comparisons it has performed. *)
Definition float_binary_search_counted (arr : list A) (x : A)
    : result (Z * option A * Z) :=
  let low := 0 in
  let high := Py.len arr - 1 in
  let iterations := 0 in
  let upper_bound := None in
  bs_loop (S (length arr)) arr x low high iterations upper_bound 0.

Definition float_binary_search (arr : list A) (x : A)
    : result (Z * option A) :=
  r ← float_binary_search_counted arr x; Ok r.1.

End BinarySearch.

(** ** Specifications *)

(** [pattern] occurs in [text] as a contiguous substring that starts at
    offset [k]. *)
Definition occurs_at (text pattern : list Z) (k : nat) : Prop :=
  ∃ before after, text = before ++ pattern ++ after ∧ length before = k.

(** [r] is what a search has to return: the smallest offset of an
    occurrence, or [-1] when there is none. *)
Definition first_match (text pattern : list Z) (r : Z) : Prop :=
  (0 ≤ r ∧ occurs_at text pattern (Z.to_nat r)
   ∧ ∀ k, (k < Z.to_nat r)%nat → ¬ occurs_at text pattern k)
  ∨ (r = -1 ∧ ∀ k, ¬ occurs_at text pattern k).

(** The prefix of [s] of length [b] is also a suffix of [s], and is not
    the whole of [s]. *)
Definition proper_border (s : list Z) (b : nat) : Prop :=
  (b < length s)%nat ∧ take b s = drop (length s - b) s.

Definition longest_proper_border (s : list Z) (b : nat) : Prop :=
  proper_border s b ∧ ∀ b', proper_border s b' → (b' ≤ b)%nat.

(** The value of [s] read as a number in base [base], first unit most
    significant: the sum of [ord(s[k]) * base^(n-1-k)]. *)
Fixpoint poly_val (base : Z) (s : list Z) : Z :=
  match s with
  | [] => 0
  | c :: s' => Py.ord c * base ^ Py.len s' + poly_val base s'
  end.

(** The largest index below [n] at which [c] occurs in [pattern]. *)
Definition last_index_below (pattern : list Z) (n : nat) (c : Z) (k : nat)
    : Prop :=
  (k < n)%nat ∧ pattern !! k = Some c
  ∧ ∀ k', (k' < n)%nat → pattern !! k' = Some c → (k' ≤ k)%nat.

(** The last index at which [c] occurs in [l]. *)
Fixpoint last_occ (l : list Z) (c : Z) : option nat :=
  match l with
  | [] => None
  | a :: l' =>
      match last_occ l' c with
      | Some j => Some (S j)
      | None => if decide (a = c) then Some 0%nat else None
      end
  end.

(** [pborder p n b]: the first [b] units of [p] are a proper border of the
    first [n] units of [p], by indices. *)
Definition pborder (p : list Z) (n b : nat) : Prop :=
  (b < n)%nat ∧ ∀ q, (q < b)%nat → p !! q = p !! (n - b + q)%nat.

(** Entry [k] of [lps] is the longest proper border of the first [k+1]
    units of [p]. *)
Definition lps_ok (p lps : list Z) (k : nat) : Prop :=
  ∃ b, lps !! k = Some (Z.of_nat b) ∧ pborder p (S k) b
       ∧ ∀ b', pborder p (S k) b' → (b' ≤ b)%nat.

(** The hash of the window of [text] that starts at offset [k], as long as
    the pattern. *)
Definition window_hash (text pattern : list Z) (k : nat) : Z :=
  poly_val 256 (take (length pattern) (drop k text)) mod 101.

(** The rounds [i], [i+1], ..., [i+n-1], each with the hash of its window,
    latest first. *)
Definition rounds_from (text pattern : list Z) (i n : nat) : list (Z * Z) :=
  reverse ((fun k => (Z.of_nat k, window_hash text pattern k)) <$> seq i n).

(** [arr] is in non-decreasing order for the comparison [geb]. *)
Definition sorted_by {A} (geb : A → A → bool) (arr : list A) : Prop :=
  ∀ i j a b, (i < j)%nat → arr !! i = Some a → arr !! j = Some b →
             geb b a = true.

(** [ub] is the smallest element of [arr] that is [>= x], or [None] when
    no element of [arr] is [>= x]. *)
Definition smallest_ge {A} (geb : A → A → bool) (arr : list A) (x : A)
    (ub : option A) : Prop :=
  match ub with
  | Some v => v ∈ arr ∧ geb v x = true
              ∧ ∀ w, w ∈ arr → geb w x = true → geb w v = true
  | None => ∀ w, w ∈ arr → geb w x = false
  end.

(** ** Python sequences: basic facts *)

(** One step of a computation in [result]: the value of a call that has
    been rewritten to [Ok] is passed on. *)
Ltac py_run := cbn [mbind result_bind].

Lemma len_nonneg {A} (l : list A) : 0 ≤ Py.len l.
Proof. unfold Py.len. lia. Qed.

Lemma length_pos {A} (l : list A) : l ≠ [] → (0 < length l)%nat.
Proof. destruct l; [done|simpl; lia]. Qed.

Lemma len_cons {A} (a : A) (l : list A) : Py.len (a :: l) = Py.len l + 1.
Proof. unfold Py.len. simpl. lia. Qed.

Lemma getitem_nat {A} (l : list A) (k : nat) (a : A) :
  l !! k = Some a → Py.getitem l (Z.of_nat k) = Ok a.
Proof.
  intros Hk. pose proof (lookup_lt_Some _ _ _ Hk) as Hlt.
  unfold Py.getitem, Py.len.
  destruct (Z.ltb_spec (Z.of_nat k) 0); [lia|].
  destruct (Z.leb_spec 0 (Z.of_nat k)); [|lia].
  destruct (Z.ltb_spec (Z.of_nat k) (Z.of_nat (length l))); [|lia].
  simpl. by rewrite Nat2Z.id, Hk.
Qed.

Lemma getitem_Z {A} (l : list A) (i : Z) (a : A) :
  0 ≤ i → l !! Z.to_nat i = Some a → Py.getitem l i = Ok a.
Proof.
  intros Hi Hk. rewrite <- (Z2Nat.id i) by done. by apply getitem_nat.
Qed.

Lemma getitem_last {A} (l : list A) (a : A) :
  last l = Some a → Py.getitem l (-1) = Ok a.
Proof.
  intros Hl. rewrite last_lookup in Hl.
  pose proof (lookup_lt_Some _ _ _ Hl) as Hlt.
  unfold Py.getitem, Py.len. simpl.
  destruct (Z.leb_spec 0 (-1 + Z.of_nat (length l))); [|lia].
  destruct (Z.ltb_spec (-1 + Z.of_nat (length l)) (Z.of_nat (length l)));
    [|lia].
  simpl. replace (Z.to_nat (-1 + Z.of_nat (length l))) with (pred (length l))
    by lia.
  by rewrite Hl.
Qed.

Lemma getitem_empty {A} (i : Z) : Py.getitem (@nil A) i = Raise IndexError.
Proof.
  unfold Py.getitem, Py.len. simpl.
  destruct (_ && _) eqn:E; [|done].
  apply andb_true_iff in E as [E1%Z.leb_le E2%Z.ltb_lt].
  destruct (i <? 0); lia.
Qed.

Lemma setitem_nat {A} (l : list A) (k : nat) (v : A) :
  (k < length l)%nat → Py.setitem l (Z.of_nat k) v = Ok (<[k := v]> l).
Proof.
  intros Hlt. unfold Py.setitem, Py.len.
  destruct (Z.ltb_spec (Z.of_nat k) 0); [lia|].
  destruct (Z.leb_spec 0 (Z.of_nat k)); [|lia].
  destruct (Z.ltb_spec (Z.of_nat k) (Z.of_nat (length l))); [|lia].
  simpl. by rewrite Nat2Z.id.
Qed.

Lemma slice_nat {A} (l : list A) (a b : nat) :
  (a ≤ b)%nat → (b ≤ length l)%nat →
  Py.slice l (Z.of_nat a) (Z.of_nat b) = take (b - a) (drop a l).
Proof.
  intros Hab Hb. unfold Py.slice, Py.clamp, Py.len.
  destruct (Z.ltb_spec (Z.of_nat a) 0); [lia|].
  destruct (Z.ltb_spec (Z.of_nat b) 0); [lia|].
  f_equal; [|f_equal]; lia.
Qed.

Lemma slice_init {A} (l : list A) :
  Py.slice l 0 (-1) = take (length l - 1) l.
Proof.
  unfold Py.slice, Py.clamp, Py.len.
  change (0 <? 0) with false. change (-1 <? 0) with true. cbv iota.
  transitivity (take (length l - 1) (drop 0 l)); [|by rewrite drop_0].
  f_equal; [|f_equal]; lia.
Qed.

Lemma mod_ok (a b : Z) : b ≠ 0 → Py.mod_ a b = Ok (a mod b).
Proof.
  intros Hb. unfold Py.mod_. by destruct (Z.eqb_spec b 0).
Qed.
(** ** polynomial_hash *)

Lemma enumerate_from_cons {A} (k : Z) (a : A) (l : list A) :
  Py.enumerate_from k (a :: l) = (k, a) :: Py.enumerate_from (k + 1) l.
Proof. done. Qed.

Lemma mod_add_mul_idemp (acc c p m : Z) :
  (acc + c * (p mod m)) mod m = (acc + c * p) mod m.
Proof.
  destruct (Z.eq_dec m 0) as [->|Hm].
  - by rewrite !Z.mod_0_r.
  - rewrite <- Z.add_mod_idemp_r, Z.mul_mod_idemp_r by done.
    by rewrite Z.add_mod_idemp_r.
Qed.

Lemma polynomial_hash_loop_spec (base modulus : Z) (s : list Z) (k acc : Z) :
  modulus ≠ 0 →
  polynomial_hash_loop (k + Py.len s) base modulus (Py.enumerate_from k s) acc
  = Ok (match s with
        | [] => acc
        | _ => (acc + poly_val base s) mod modulus
        end).
Proof.
  intros Hm. revert k acc. induction s as [|c s IH]; intros k acc; [done|].
  rewrite enumerate_from_cons. cbn [polynomial_hash_loop].
  rewrite len_cons.
  replace (k + (Py.len s + 1)) with (k + 1 + Py.len s) by lia.
  do 2 (rewrite mod_ok by done; py_run).
  rewrite IH. f_equal.
  replace (k + 1 + Py.len s - k - 1) with (Py.len s) by lia.
  cbn [poly_val]. destruct s as [|d s].
  - cbn [poly_val]. rewrite Z.add_0_r. apply mod_add_mul_idemp.
  - rewrite mod_add_mul_idemp, Z.add_mod_idemp_l by done.
    by rewrite Z.add_assoc.
Qed.

Lemma polynomial_hash_spec (s : list Z) (base modulus : Z) :
  modulus ≠ 0 →
  polynomial_hash s base modulus
  = Ok (match s with [] => 0 | _ => poly_val base s mod modulus end).
Proof.
  intros Hm. unfold polynomial_hash, Py.enumerate.
  rewrite <- (Z.add_0_l (Py.len s)).
  rewrite polynomial_hash_loop_spec by done. by destruct s.
Qed.

Lemma polynomial_hash_mod (s : list Z) (base modulus : Z) :
  0 < modulus →
  polynomial_hash s base modulus = Ok (poly_val base s mod modulus).
Proof.
  intros Hm. rewrite polynomial_hash_spec by lia. destruct s; [|done].
  simpl. by rewrite Z.mod_0_l by lia.
Qed.

(** C10: for a positive modulus, polynomial_hash returns an integer in
    [0, modulus); and polynomial_hash("a", 256, 101) is ord('a') mod 101,
    which is 97. *)
Theorem polynomial_hash_range (s : list Z) (base modulus : Z)
    (Hmodulus : 0 < modulus) :
  (∃ h, polynomial_hash s base modulus = Ok h ∧ 0 ≤ h < modulus)
  ∧ polynomial_hash (Py.str "a") 256 101 = Ok (Py.ord 97 mod 101)
  ∧ Py.ord 97 mod 101 = 97.
Proof.
  split; [|done].
  exists (poly_val base s mod modulus). split.
  - by apply polynomial_hash_mod.
  - by apply Z.mod_pos_bound.
Qed.

Lemma polynomial_hash_range_witness :
  0 < 101 ∧
  ((∃ h, polynomial_hash (Py.str "GEEK") 256 101 = Ok h ∧ 0 ≤ h < 101)
   ∧ polynomial_hash (Py.str "a") 256 101 = Ok (Py.ord 97 mod 101)
   ∧ Py.ord 97 mod 101 = 97).
Proof.
  split; [lia|]. apply (polynomial_hash_range (Py.str "GEEK") 256 101). lia.
Defined.

(** ** build_shift_table *)

Lemma last_occ_None (l : list Z) (c : Z) : last_occ l c = None ↔ c ∉ l.
Proof.
  induction l as [|a l IH]; simpl.
  - split; [intros _; apply not_elem_of_nil|done].
  - rewrite not_elem_of_cons. destruct (last_occ l c) as [j|].
    + split; [done|]. intros [_ Hc]. by apply IH in Hc.
    + destruct (decide (a = c)) as [->|Hne].
      * split; [done|]. by intros [? _].
      * split; [|done]. intros _. split; [done|]. by apply IH.
Qed.

Lemma last_occ_Some (l : list Z) (c : Z) (j : nat) :
  last_occ l c = Some j ↔
  l !! j = Some c ∧ ∀ j', l !! j' = Some c → (j' ≤ j)%nat.
Proof.
  revert j. induction l as [|a l IH]; intros j; simpl.
  - split; [done|]. by intros [? _].
  - destruct (last_occ l c) as [j0|] eqn:E.
    + split.
      * intros [= <-]. destruct (IH j0) as [[H1 H2] _]; [done|].
        split; [done|]. intros [|j'] Hj'; [lia|]. apply H2 in Hj'. lia.
      * intros [H1 H2]. destruct j as [|j].
        { destruct (IH j0) as [[H3 _] _]; [done|].
          specialize (H2 (S j0) H3). lia. }
        assert (Some j0 = Some j) as [= ->]; [|done].
        apply IH. split; [done|].
        intros j' Hj'. specialize (H2 (S j') Hj'). lia.
    + apply last_occ_None in E.
      destruct (decide (a = c)) as [->|Hne].
      * split.
        { intros [= <-]. split; [done|]. intros [|j'] Hj'; [lia|].
          destruct E. eapply list_elem_of_lookup_2, Hj'. }
        { intros [H1 _]. destruct j as [|j]; [done|].
          destruct E. eapply list_elem_of_lookup_2, H1. }
      * split; [done|]. intros [H1 _]. destruct j as [|j].
        { simpl in H1. congruence. }
        { destruct E. eapply list_elem_of_lookup_2, H1. }
Qed.

Lemma shift_fold_lookup (L : Z) (l : list Z) (k : Z) (t : gmap Z Z) (c : Z) :
  foldl (fun (table : gmap Z Z) '(index, char) =>
           <[char := L - index - 1]> table) t (Py.enumerate_from k l) !! c
  = match last_occ l c with
    | Some j => Some (L - (k + Z.of_nat j) - 1)
    | None => t !! c
    end.
Proof.
  revert k t. induction l as [|a l IH]; intros k t; [done|].
  cbn [Py.enumerate_from foldl last_occ]. rewrite IH.
  destruct (last_occ l c) as [j|].
  - f_equal. lia.
  - destruct (decide (a = c)) as [->|Hne].
    + rewrite lookup_insert_eq. f_equal. lia.
    + by rewrite lookup_insert_ne.
Qed.

Lemma last_index_below_occ (pattern : list Z) (n : nat) (c : Z) (k : nat) :
  last_index_below pattern n c k ↔ last_occ (take n pattern) c = Some k.
Proof.
  rewrite last_occ_Some. unfold last_index_below. split.
  - intros (Hk & Hc & Hmax). split; [by rewrite lookup_take_lt|].
    intros j' Hj'. apply lookup_take_Some in Hj' as [??]. by apply Hmax.
  - intros [Hc Hmax]. apply lookup_take_Some in Hc as [??].
    split_and!; [done..|]. intros k' ??. apply Hmax.
    by rewrite lookup_take_lt.
Qed.

(** The table that [build_shift_table] returns, by lookups. *)
Lemma build_shift_table_lookup (pattern : list Z) (final : Z) :
  last pattern = Some final →
  ∃ table, build_shift_table pattern = Ok table ∧
    ∀ c, table !! c =
      match last_occ (take (length pattern - 1) pattern) c with
      | Some k => Some (Py.len pattern - Z.of_nat k - 1)
      | None => if decide (c = final) then Some (Py.len pattern) else None
      end.
Proof.
  intros Hlast. unfold build_shift_table.
  rewrite (getitem_last _ _ Hlast). py_run.
  eexists. split; [done|]. intros c.
  rewrite slice_init. unfold Py.setdefault, Py.enumerate.
  set (tbl := foldl _ _ _).
  assert (Htbl : ∀ d, tbl !! d =
    match last_occ (take (length pattern - 1) pattern) d with
    | Some k => Some (Py.len pattern - Z.of_nat k - 1)
    | None => None
    end).
  { intros d. unfold tbl. rewrite shift_fold_lookup.
    destruct (last_occ _ d); [f_equal; lia|done]. }
  destruct (tbl !! final) as [v|] eqn:Ef.
  - rewrite Htbl. rewrite Htbl in Ef.
    destruct (last_occ _ c) eqn:Ec; [done|].
    destruct (decide (c = final)) as [->|]; [|done].
    by rewrite Ec in Ef.
  - destruct (decide (c = final)) as [->|Hne].
    + rewrite lookup_insert_eq. rewrite Htbl in Ef.
      by destruct (last_occ _ final).
    + by rewrite lookup_insert_ne, Htbl.
Qed.

Lemma last_is_Some {A} (l : list A) : l ≠ [] → ∃ a, last l = Some a.
Proof.
  intros Hl. destruct (last l) eqn:E; [by eexists|].
  by apply last_None in E.
Qed.

(** C7: for a non-empty pattern of length L, build_shift_table maps each
    unit of the first L-1 positions to L - 1 - (its largest index below
    L-1), maps the final unit to L when that unit is not among the first
    L-1 positions, has no key that is not a unit of the pattern, and stores
    only positive shifts. *)
Theorem build_shift_table_spec (pattern : list Z) (Hne : pattern ≠ []) :
  ∃ table, build_shift_table pattern = Ok table
    ∧ (∀ c k, last_index_below pattern (length pattern - 1) c k →
         table !! c = Some (Py.len pattern - 1 - Z.of_nat k))
    ∧ (∀ c, last pattern = Some c →
         c ∉ take (length pattern - 1) pattern →
         table !! c = Some (Py.len pattern))
    ∧ (∀ c, c ∉ pattern → table !! c = None)
    ∧ (∀ c v, table !! c = Some v → 0 < v).
Proof.
  destruct (last_is_Some pattern Hne) as [final Hfinal].
  destruct (build_shift_table_lookup pattern final Hfinal)
    as (table & Hrun & Htbl).
  exists table. split; [done|]. split_and!.
  - intros c k Hk. apply last_index_below_occ in Hk.
    rewrite Htbl, Hk. f_equal. lia.
  - intros c Hc Hnotin. apply last_occ_None in Hnotin.
    rewrite Htbl, Hnotin. rewrite Hfinal in Hc. injection Hc as ->.
    by rewrite decide_True.
  - intros c Hc. rewrite Htbl.
    destruct (last_occ _ c) as [k|] eqn:Ek.
    + apply last_occ_Some in Ek as [Ek _].
      apply lookup_take_Some in Ek as [Ek _].
      destruct Hc. by eapply list_elem_of_lookup_2.
    + destruct (decide (c = final)) as [->|]; [|done].
      destruct Hc. rewrite last_lookup in Hfinal.
      by eapply list_elem_of_lookup_2.
  - intros c v. rewrite Htbl.
    assert (0 < Py.len pattern).
    { unfold Py.len. destruct pattern; [done|simpl; lia]. }
    destruct (last_occ _ c) as [k|] eqn:Ek.
    + apply last_occ_Some in Ek as [Ek _].
      apply lookup_take_Some in Ek as [_ Ek].
      intros [= <-]. unfold Py.len. lia.
    + destruct (decide (c = final)); [|done]. intros [= <-]. lia.
Qed.

Lemma build_shift_table_spec_witness :
  Py.str "EXAMPLE" ≠ [] ∧
  ∃ table, build_shift_table (Py.str "EXAMPLE") = Ok table
    ∧ (∀ c k, last_index_below (Py.str "EXAMPLE")
                (length (Py.str "EXAMPLE") - 1) c k →
         table !! c = Some (Py.len (Py.str "EXAMPLE") - 1 - Z.of_nat k))
    ∧ (∀ c, last (Py.str "EXAMPLE") = Some c →
         c ∉ take (length (Py.str "EXAMPLE") - 1) (Py.str "EXAMPLE") →
         table !! c = Some (Py.len (Py.str "EXAMPLE")))
    ∧ (∀ c, c ∉ Py.str "EXAMPLE" → table !! c = None)
    ∧ (∀ c v, table !! c = Some v → 0 < v).
Proof.
  split; [done|]. by apply (build_shift_table_spec (Py.str "EXAMPLE")).
Defined.

(** ** Occurrences, by indices *)

Lemma occurs_at_lookup (text pattern : list Z) (k : nat) :
  occurs_at text pattern k ↔
  (k + length pattern ≤ length text)%nat
  ∧ ∀ q, (q < length pattern)%nat → text !! (k + q)%nat = pattern !! q.
Proof.
  split.
  - intros (before & after & -> & <-). split.
    + rewrite !length_app. lia.
    + intros q Hq. rewrite lookup_app_r by lia.
      replace (length before + q - length before)%nat with q by lia.
      by rewrite lookup_app_l.
  - intros [Hlen Hq]. exists (take k text), (drop (k + length pattern) text).
    split; [|rewrite length_take; lia].
    rewrite <- (take_drop k text) at 1. f_equal.
    rewrite <- (take_drop (length pattern) (drop k text)) at 1.
    rewrite drop_drop. f_equal.
    apply list_eq. intros q. destruct (decide (q < length pattern)%nat).
    + rewrite lookup_take_lt, lookup_drop by done. by apply Hq.
    + rewrite lookup_take_ge by lia. symmetry. apply lookup_ge_None. lia.
Qed.

Lemma occurs_at_length (text pattern : list Z) (k : nat) :
  occurs_at text pattern k → (k + length pattern ≤ length text)%nat.
Proof. intros H. by apply occurs_at_lookup in H as [? _]. Qed.

Lemma occurs_at_slice (text pattern : list Z) (k : nat) :
  occurs_at text pattern k ↔
  (k + length pattern ≤ length text)%nat
  ∧ take (length pattern) (drop k text) = pattern.
Proof.
  rewrite occurs_at_lookup. split; intros [Hlen H]; (split; [done|]).
  - apply list_eq. intros q. destruct (decide (q < length pattern)%nat).
    + rewrite lookup_take_lt, lookup_drop by done. by apply H.
    + rewrite lookup_take_ge by lia. symmetry. apply lookup_ge_None. lia.
  - intros q Hq. rewrite <- H.
    by rewrite lookup_take_lt, lookup_drop.
Qed.

Lemma lookup_lt_is {A} (l : list A) (k : nat) :
  (k < length l)%nat → ∃ a, l !! k = Some a.
Proof. intros H. by apply lookup_lt_is_Some in H as [a ?]; exists a. Qed.

(** ** boyer_moore_search *)

Lemma bm_compare_spec (text pattern : list Z) (i j fuel : nat) :
  (i + length pattern ≤ length text)%nat →
  (j ≤ length pattern)%nat →
  (j < fuel)%nat →
  (∀ q, (j ≤ q < length pattern)%nat → text !! (i + q)%nat = pattern !! q) →
  ∃ jf, bm_compare fuel text pattern (Z.of_nat i) (Z.of_nat j - 1) = Ok jf
    ∧ (jf < 0 ↔ occurs_at text pattern i).
Proof.
  intros Hlen. revert fuel. induction j as [|j IH]; intros fuel Hj Hfuel Hsuf.
  - destruct fuel as [|fuel]; [lia|]. exists (-1). split; [done|].
    split; [|lia]. intros _. apply occurs_at_lookup. split; [done|].
    intros q Hq. apply Hsuf. lia.
  - destruct fuel as [|fuel]; [lia|]. cbn [bm_compare].
    replace (Z.of_nat (S j) - 1) with (Z.of_nat j) by lia.
    destruct (Z.leb_spec 0 (Z.of_nat j)); [|lia].
    destruct (lookup_lt_is text (i + j)) as [t Ht]; [lia|].
    destruct (lookup_lt_is pattern j) as [p Hp]; [lia|].
    replace (Z.of_nat i + Z.of_nat j) with (Z.of_nat (i + j)) by lia.
    rewrite (getitem_nat _ _ _ Ht), (getitem_nat _ _ _ Hp).
    py_run. destruct (Z.eqb_spec t p) as [->|Hne].
    + apply IH; [lia..|]. intros q Hq.
      destruct (decide (q = j)) as [->|]; [congruence|]. apply Hsuf. lia.
    + exists (Z.of_nat j). split; [done|]. split; [lia|].
      intros [_ Hocc]%occurs_at_lookup. specialize (Hocc j ltac:(lia)).
      congruence.
Qed.

Lemma shift_get (pattern : list Z) (final : Z) (table : gmap Z Z) (c : Z) :
  (∀ c, table !! c =
     match last_occ (take (length pattern - 1) pattern) c with
     | Some k => Some (Py.len pattern - Z.of_nat k - 1)
     | None => if decide (c = final) then Some (Py.len pattern) else None
     end) →
  Py.get table c (Py.len pattern) =
    match last_occ (take (length pattern - 1) pattern) c with
    | Some k => Py.len pattern - Z.of_nat k - 1
    | None => Py.len pattern
    end.
Proof.
  intros Htbl. unfold Py.get. rewrite Htbl.
  destruct (last_occ _ c); [done|]. by destruct (decide (c = final)).
Qed.

(** The shift is positive and skips no occurrence. *)
Lemma shift_safe (text pattern : list Z) (i : nat) (c : Z) :
  pattern ≠ [] →
  text !! (i + length pattern - 1)%nat = Some c →
  let s := match last_occ (take (length pattern - 1) pattern) c with
           | Some k => Py.len pattern - Z.of_nat k - 1
           | None => Py.len pattern
           end in
  0 < s ∧ ∀ d, (0 < d)%nat → Z.of_nat d < s →
               ¬ occurs_at text pattern (i + d).
Proof.
  intros Hne Hc s.
  pose proof (length_pos pattern Hne) as HM.
  split.
  - unfold s, Py.len. destruct (last_occ _ c) as [k|] eqn:Ek; [|lia].
    apply last_occ_Some in Ek as [Ek _].
    apply lookup_take_Some in Ek as [_ Ek]. lia.
  - intros d Hd Hds [Hlen Hocc]%occurs_at_lookup.
    assert (Z.of_nat d < Py.len pattern).
    { unfold s, Py.len in *. destruct (last_occ _ c); lia. }
    unfold Py.len in *.
    specialize (Hocc (length pattern - 1 - d)%nat ltac:(lia)).
    replace (i + d + (length pattern - 1 - d))%nat
      with (i + length pattern - 1)%nat in Hocc by lia.
    rewrite Hc in Hocc. symmetry in Hocc.
    unfold s in Hds. destruct (last_occ _ c) as [k|] eqn:Ek.
    + apply last_occ_Some in Ek as [_ Ek].
      specialize (Ek (length pattern - 1 - d)%nat).
      rewrite lookup_take_lt in Ek by lia. specialize (Ek Hocc). lia.
    + apply last_occ_None in Ek. destruct Ek.
      eapply list_elem_of_lookup_2. rewrite lookup_take_lt; [done|lia].
Qed.

Lemma bm_loop_spec (text pattern : list Z) (final : Z) (table : gmap Z Z)
    (fuel i : nat) :
  pattern ≠ [] →
  (∀ c, table !! c =
     match last_occ (take (length pattern - 1) pattern) c with
     | Some k => Some (Py.len pattern - Z.of_nat k - 1)
     | None => if decide (c = final) then Some (Py.len pattern) else None
     end) →
  (length text - i < fuel)%nat →
  (∀ k, (k < i)%nat → ¬ occurs_at text pattern k) →
  ∃ r, bm_loop fuel text pattern table (Py.len pattern) (Py.len text)
         (Z.of_nat i) = Ok r
    ∧ first_match text pattern r.
Proof.
  intros Hne Htbl. revert i. induction fuel as [|fuel IH]; intros i Hfuel Hinv.
  { lia. }
  cbn [bm_loop].
  pose proof (length_pos pattern Hne) as HM.
  destruct (Z.leb_spec (Z.of_nat i) (Py.len text - Py.len pattern))
    as [Hle|Hgt]; unfold Py.len in *|-.
  - destruct (bm_compare_spec text pattern i (length pattern)
                (S (length pattern)))
      as (jf & Hrun & Hjf); [lia..|intros q ?; lia|].
    change (Z.of_nat (length pattern)) with (Py.len pattern) in Hrun.
    rewrite Hrun. py_run.
    destruct (Z.ltb_spec jf 0) as [Hneg|Hpos].
    + exists (Z.of_nat i). split; [done|]. left.
      rewrite Nat2Z.id. split_and!; [lia|by apply Hjf|done].
    + destruct (lookup_lt_is text (i + length pattern - 1)) as [c Hc]; [lia|].
      replace (Z.of_nat i + Py.len pattern - 1)
        with (Z.of_nat (i + length pattern - 1)) by (unfold Py.len; lia).
      rewrite (getitem_nat _ _ _ Hc). py_run.
      rewrite (shift_get pattern final table c Htbl).
      destruct (shift_safe text pattern i c Hne Hc) as [Hs Hsafe].
      set (s := match last_occ _ c with Some _ => _ | None => _ end) in *.
      replace (Z.of_nat i + s) with (Z.of_nat (i + Z.to_nat s)) by lia.
      apply IH; [lia|]. intros k Hk.
      destruct (decide (k < i)%nat); [by apply Hinv|].
      destruct (decide (k = i)) as [->|]; [rewrite <- Hjf; lia|].
      replace k with (i + (k - i))%nat by lia. apply Hsafe; lia.
  - exists (-1). split; [done|]. right. split; [done|].
    intros k Hocc. destruct (decide (k < i)%nat); [by eapply Hinv|].
    apply occurs_at_length in Hocc. lia.
Qed.

Lemma boyer_moore_search_correct (text pattern : list Z) :
  pattern ≠ [] →
  ∃ r, boyer_moore_search text pattern = Ok r ∧ first_match text pattern r.
Proof.
  intros Hne. unfold boyer_moore_search.
  rewrite bool_decide_eq_false_2 by done. cbn [orb].
  destruct (decide (text = [])) as [->|Ht].
  - rewrite bool_decide_eq_true_2 by done. exists (-1). split; [done|].
    right. split; [done|]. intros k Hocc%occurs_at_length.
    destruct pattern; [done|]. simpl in Hocc. lia.
  - rewrite bool_decide_eq_false_2 by done.
    destruct (last_is_Some pattern Hne) as [final Hfinal].
    destruct (build_shift_table_lookup pattern final Hfinal)
      as (table & -> & Htbl).
    py_run.
    apply (bm_loop_spec text pattern final table (S (length text)) 0);
      [done..|lia|lia].
Qed.

(** ** compute_lps *)

Lemma proper_border_take (p : list Z) (n b : nat) :
  (n ≤ length p)%nat → proper_border (take n p) b ↔ pborder p n b.
Proof.
  intros Hn. unfold proper_border, pborder.
  rewrite length_take, Nat.min_l by done.
  split; intros [Hb H]; (split; [done|]).
  - intros q Hq. apply (f_equal (.!! q)) in H.
    rewrite take_take, Nat.min_l in H by lia.
    rewrite lookup_take_lt, lookup_drop, lookup_take_lt in H by lia. done.
  - rewrite take_take, Nat.min_l by lia. apply list_eq. intros q.
    destruct (decide (q < b)%nat).
    + rewrite lookup_take_lt, lookup_drop, lookup_take_lt by lia. by apply H.
    + rewrite lookup_take_ge by lia. symmetry. apply lookup_ge_None.
      rewrite length_drop, length_take. lia.
Qed.

Lemma pborder_0 (p : list Z) (n : nat) : (0 < n)%nat → pborder p n 0.
Proof. intros Hn. split; [done|]. intros q Hq. lia. Qed.

Lemma pborder_shrink (p : list Z) (n b : nat) :
  pborder p (S n) (S b) → pborder p n b.
Proof.
  intros [Hb H]. split; [lia|]. intros q Hq. rewrite H by lia.
  f_equal; lia.
Qed.

Lemma pborder_extend (p : list Z) (n b : nat) :
  pborder p n b → p !! b = p !! n → pborder p (S n) (S b).
Proof.
  intros [Hb H] Heq. split; [lia|]. intros q Hq.
  destruct (decide (q = b)) as [->|].
  - rewrite Heq. f_equal; lia.
  - rewrite H by lia. f_equal; lia.
Qed.

Lemma pborder_last (p : list Z) (n b : nat) :
  pborder p (S n) (S b) → p !! b = p !! n.
Proof. intros [Hb H]. rewrite H by lia. f_equal; lia. Qed.

(** A border of a border is a border. *)
Lemma pborder_trans (p : list Z) (n b c : nat) :
  pborder p n b → pborder p b c → pborder p n c.
Proof.
  intros [Hb H] [Hc H']. split; [lia|]. intros q Hq.
  rewrite H' by done. rewrite H by lia. f_equal; lia.
Qed.

(** Of two borders of the same prefix, the shorter is a border of the
    longer. *)
Lemma pborder_nest (p : list Z) (n b c : nat) :
  pborder p n b → pborder p n c → (c < b)%nat → pborder p b c.
Proof.
  intros [Hb H] [Hc H'] Hcb. split; [done|]. intros q Hq.
  rewrite (H' q), (H (b - c + q)%nat) by lia. f_equal; lia.
Qed.

Lemma lps_ok_insert_ne (p lps : list Z) (i k : nat) (v : Z) :
  k ≠ i → lps_ok p lps k → lps_ok p (<[i := v]> lps) k.
Proof.
  intros Hne (b & Hb & H). exists b. by rewrite list_lookup_insert_ne.
Qed.

Lemma lps_loop_spec (p : list Z) (fuel i l : nat) (lps : list Z) :
  (1 ≤ i ≤ length p)%nat →
  pborder p i l →
  length lps = length p →
  (∀ k, (k < i)%nat → lps_ok p lps k) →
  (∀ b, pborder p (S i) b → (b ≤ S l)%nat) →
  (2 * (length p - i) + l < fuel)%nat →
  ∃ lps', lps_loop fuel p lps (Z.of_nat l) (Z.of_nat i) = Ok lps'
    ∧ length lps' = length p
    ∧ ∀ k, (k < length p)%nat → lps_ok p lps' k.
Proof.
  revert i l lps.
  induction fuel as [|fuel IH]; intros i l lps Hi Hl Hlen Hlps Hmax Hfuel;
    [lia|].
  cbn [lps_loop]. unfold Py.len.
  destruct (Z.ltb_spec (Z.of_nat i) (Z.of_nat (length p))) as [Hlt|Hge].
  2: { exists lps. split_and!; [done..|]. intros k Hk. apply Hlps. lia. }
  pose proof Hl as [Hli _].
  destruct (lookup_lt_is p i) as [pi Hpi]; [lia|].
  destruct (lookup_lt_is p l) as [pl Hpl]; [lia|].
  rewrite (getitem_nat _ _ _ Hpi), (getitem_nat _ _ _ Hpl).
  py_run. destruct (Z.eqb_spec pi pl) as [->|Hne].
  - (* the border grows by one unit *)
    rewrite setitem_nat by lia. py_run.
    replace (Z.of_nat l + 1) with (Z.of_nat (S l)) by lia.
    replace (Z.of_nat i + 1) with (Z.of_nat (S i)) by lia.
    assert (pborder p (S i) (S l)) as Hext
      by (apply pborder_extend; [done|congruence]).
    apply IH; [lia|done|by rewrite length_insert| | |lia].
    + intros k Hk. destruct (decide (k = i)) as [->|].
      * exists (S l). by rewrite list_lookup_insert_eq by lia.
      * apply lps_ok_insert_ne; [done|]. apply Hlps. lia.
    + intros [|b] Hb; [lia|]. apply pborder_shrink, Hmax in Hb. lia.
  - destruct (Z.eqb_spec (Z.of_nat l) 0) as [Hl0|Hl0]; cbn [negb].
    + (* no border at all *)
      assert (l = 0%nat) as -> by lia.
      rewrite setitem_nat by lia. py_run.
      replace (Z.of_nat i + 1) with (Z.of_nat (S i)) by lia.
      assert (∀ b, pborder p (S i) b → (b ≤ 0)%nat) as Hnone.
      { intros [|b] Hb; [lia|]. pose proof (Hmax _ Hb).
        assert (b = 0%nat) as -> by lia.
        apply pborder_last in Hb. congruence. }
      apply IH; [lia|apply pborder_0; lia|by rewrite length_insert| | |lia].
      * intros k Hk. destruct (decide (k = i)) as [->|].
        { exists 0%nat. rewrite list_lookup_insert_eq by lia.
          split_and!; [done|apply pborder_0; lia|done]. }
        { apply lps_ok_insert_ne; [done|]. apply Hlps. lia. }
      * intros [|b] Hb; [lia|]. apply pborder_shrink, Hnone in Hb. lia.
    + (* fall back to the longest border of the current border *)
      destruct (Hlps (l - 1)%nat) as (b & Hb & Hbl & Hbmax); [lia|].
      replace (S (l - 1)) with l in Hbl, Hbmax by lia.
      replace (Z.of_nat l - 1) with (Z.of_nat (l - 1)) by lia.
      rewrite (getitem_nat _ _ _ Hb). py_run.
      pose proof Hbl as [Hblt _].
      apply IH; [done|by eapply pborder_trans|done|done| |lia].
      intros [|b'] Hb'; [lia|]. pose proof (Hmax _ Hb') as Hle.
      assert (b' ≠ l).
      { intros ->. apply pborder_last in Hb'. congruence. }
      apply pborder_shrink in Hb'.
      pose proof (Hbmax b' (pborder_nest p i l b' Hl Hb' ltac:(lia))). lia.
Qed.

Lemma compute_lps_spec (pattern : list Z) :
  ∃ lps, compute_lps pattern = Ok lps
    ∧ length lps = length pattern
    ∧ ∀ k, (k < length pattern)%nat → lps_ok pattern lps k.
Proof.
  destruct (decide (pattern = [])) as [->|Hne].
  { exists []. split_and!; [done..|]. simpl. lia. }
  pose proof (length_pos pattern Hne) as HM.
  unfold compute_lps.
  apply (lps_loop_spec pattern _ 1 0).
  - lia.
  - apply pborder_0. lia.
  - apply length_replicate.
  - intros k Hk. assert (k = 0%nat) as -> by lia. exists 0%nat.
    split_and!.
    + by rewrite lookup_replicate_2 by lia.
    + apply pborder_0. lia.
    + intros b' [? _]. lia.
  - intros b [? _]. lia.
  - lia.
Qed.

(** C6: for a non-empty pattern and every position i of it, entry i of
    compute_lps(pattern) is the length of the longest proper prefix of
    pattern[0..=i] that is also a suffix of pattern[0..=i]. *)
Theorem compute_lps_longest_border (pattern : list Z) (Hne : pattern ≠ []) :
  ∃ lps, compute_lps pattern = Ok lps
    ∧ length lps = length pattern
    ∧ ∀ i, (i < length pattern)%nat →
        ∃ b, lps !! i = Some (Z.of_nat b)
             ∧ longest_proper_border (take (S i) pattern) b.
Proof.
  destruct (compute_lps_spec pattern) as (lps & Hrun & Hlen & Hlps).
  exists lps. split_and!; [done..|]. intros i Hi.
  destruct (Hlps i Hi) as (b & Hb & Hbord & Hmax).
  exists b. split; [done|]. split.
  - apply proper_border_take; [lia|done].
  - intros b' Hb'. apply Hmax. apply proper_border_take in Hb'; [done|lia].
Qed.

Lemma compute_lps_longest_border_witness :
  Py.str "ABABCABAB" ≠ [] ∧
  ∃ lps, compute_lps (Py.str "ABABCABAB") = Ok lps
    ∧ length lps = length (Py.str "ABABCABAB")
    ∧ ∀ i, (i < length (Py.str "ABABCABAB"))%nat →
        ∃ b, lps !! i = Some (Z.of_nat b)
             ∧ longest_proper_border (take (S i) (Py.str "ABABCABAB")) b.
Proof.
  split; [done|].
  by apply (compute_lps_longest_border (Py.str "ABABCABAB")).
Defined.

(** ** kmp_search *)

Lemma kmp_loop_spec (text pattern lps : list Z) (fuel i j : nat) :
  (∀ k, (k < length pattern)%nat → lps_ok pattern lps k) →
  (j < length pattern)%nat →
  (j ≤ i ≤ length text)%nat →
  (∀ q, (q < j)%nat → pattern !! q = text !! (i - j + q)%nat) →
  (∀ k, (k < i - j)%nat → ¬ occurs_at text pattern k) →
  (2 * (length text - i) + j < fuel)%nat →
  ∃ r, kmp_loop fuel text pattern lps (Py.len pattern) (Py.len text)
         (Z.of_nat i) (Z.of_nat j) = Ok r
    ∧ first_match text pattern r.
Proof.
  intros Hlps. revert i j.
  induction fuel as [|fuel IH]; intros i j Hj Hi Hmatch Hnone Hfuel; [lia|].
  cbn [kmp_loop].
  destruct (Z.ltb_spec (Z.of_nat i) (Py.len text)) as [Hlt|Hge];
    unfold Py.len in *|-.
  2: { exists (-1). split; [done|]. right. split; [done|]. intros k Hocc.
       destruct (decide (k < i - j)%nat); [by eapply Hnone|].
       apply occurs_at_length in Hocc. lia. }
  destruct (lookup_lt_is pattern j) as [pj Hpj]; [lia|].
  destruct (lookup_lt_is text i) as [ti Hti]; [lia|].
  rewrite (getitem_nat _ _ _ Hpj), (getitem_nat _ _ _ Hti).
  py_run. destruct (Z.eqb_spec pj ti) as [->|Hne].
  - (* the units agree *)
    py_run.
    assert (∀ q, (q < S j)%nat → pattern !! q = text !! (S i - S j + q)%nat)
      as Hmatch'.
    { intros q Hq. destruct (decide (q = j)) as [->|].
      - rewrite Hpj, <- Hti. f_equal; lia.
      - rewrite Hmatch by lia. f_equal; lia. }
    destruct (Z.eqb_spec (Z.of_nat j + 1) (Py.len pattern)) as [HM|HM];
      unfold Py.len in HM.
    + exists (Z.of_nat (i - j)). split; [f_equal; lia|]. left.
      rewrite Nat2Z.id. split_and!; [lia| |done].
      apply occurs_at_lookup. split; [lia|]. intros q Hq.
      rewrite Hmatch' by lia. f_equal; lia.
    + replace (Z.of_nat i + 1) with (Z.of_nat (S i)) by lia.
      replace (Z.of_nat j + 1) with (Z.of_nat (S j)) by lia.
      apply IH; [lia|lia|done| |lia].
      intros k Hk. apply Hnone. lia.
  - destruct (Z.eqb_spec (Z.of_nat j) 0) as [Hj0|Hj0]; cbn [negb].
    + (* mismatch on the first unit of the pattern *)
      assert (j = 0%nat) as -> by lia. py_run.
      destruct (Z.eqb_spec (Z.of_nat 0) (Py.len pattern)) as [HM|HM];
        unfold Py.len in HM; [lia|].
      replace (Z.of_nat i + 1) with (Z.of_nat (S i)) by lia.
      apply IH; [lia|lia|intros q ?; lia| |lia].
      intros k Hk. destruct (decide (k = i)) as [->|].
      * intros [_ Hocc]%occurs_at_lookup. specialize (Hocc 0%nat ltac:(lia)).
        rewrite Nat.add_0_r in Hocc. congruence.
      * apply Hnone. lia.
    + (* mismatch further on: fall back on the border *)
      destruct (Hlps (j - 1)%nat) as (b & Hb & Hbj & Hbmax); [lia|].
      replace (S (j - 1)) with j in Hbj, Hbmax by lia.
      replace (Z.of_nat j - 1) with (Z.of_nat (j - 1)) by lia.
      rewrite (getitem_nat _ _ _ Hb). py_run.
      pose proof Hbj as [Hblt Hbeq].
      destruct (Z.eqb_spec (Z.of_nat b) (Py.len pattern)) as [HM|HM];
        unfold Py.len in HM; [lia|].
      apply IH; [lia|lia| | |lia].
      * intros q Hq. rewrite Hbeq by done. rewrite Hmatch by lia.
        f_equal; lia.
      * intros k Hk Hocc. destruct (decide (k < i - j)%nat);
          [by eapply Hnone|].
        apply occurs_at_lookup in Hocc as [Hlen Hocc].
        destruct (decide (k = i - j)%nat) as [->|].
        { specialize (Hocc j Hj).
          replace (i - j + j)%nat with i in Hocc by lia. congruence. }
        assert (pborder pattern j (i - k)) as Hbord.
        { split; [lia|]. intros q Hq. rewrite <- Hocc by lia.
          rewrite Hmatch by lia. f_equal; lia. }
        apply Hbmax in Hbord. lia.
Qed.

Lemma kmp_search_correct (text pattern : list Z) :
  pattern ≠ [] →
  ∃ r, kmp_search text pattern = Ok r ∧ first_match text pattern r.
Proof.
  intros Hne. unfold kmp_search.
  pose proof (length_pos pattern Hne) as HM.
  destruct (compute_lps_spec pattern) as (lps & -> & _ & Hlps).
  py_run.
  apply (kmp_loop_spec text pattern lps _ 0 0); [done|lia|lia|..|lia].
  - intros q ?. lia.
  - intros k ?. lia.
Qed.

(** ** rabin_karp_search *)

Lemma poly_val_snoc (base : Z) (w : list Z) (d : Z) :
  poly_val base (w ++ [d]) = poly_val base w * base + Py.ord d.
Proof.
  induction w as [|c w IH]; simpl.
  - unfold Py.len. simpl. lia.
  - rewrite IH. unfold Py.len. rewrite length_app. simpl.
    replace (Z.of_nat (length w + 1)) with (Z.succ (Z.of_nat (length w)))
      by lia.
    rewrite Z.pow_succ_r by lia. lia.
Qed.

(** The window that follows is the window without its first unit, with
    one more unit at the end. *)
Lemma window_slide (text : list Z) (i M : nat) :
  (0 < M)%nat → (i + M < length text)%nat →
  ∃ a d w, text !! i = Some a ∧ text !! (i + M)%nat = Some d
    ∧ length w = (M - 1)%nat
    ∧ take M (drop i text) = a :: w
    ∧ take M (drop (S i) text) = w ++ [d].
Proof.
  intros HM Hi.
  destruct (lookup_lt_is text i) as [a Ha]; [lia|].
  destruct (lookup_lt_is text (i + M)) as [d Hd]; [lia|].
  exists a, d, (take (M - 1) (drop (S i) text)). split_and!; [done..| | |].
  - rewrite length_take, length_drop. lia.
  - rewrite (drop_S _ _ _ Ha). by destruct M; [lia|rewrite Nat.sub_1_r].
  - replace M with (S (M - 1)) at 1 by lia. apply take_S_r.
    rewrite lookup_drop, <- Hd. f_equal; lia.
Qed.

(** The rolling update, on the values. *)
Lemma mod_sub_mul_idemp (h a p m : Z) :
  (h mod m - a * (p mod m)) mod m = (h - a * p) mod m.
Proof.
  rewrite Zminus_mod_idemp_l.
  rewrite <- Zminus_mod_idemp_r.
  destruct (Z.eq_dec m 0) as [->|Hm].
  - by rewrite !Z.mod_0_r.
  - rewrite Z.mul_mod_idemp_r by done. by rewrite Zminus_mod_idemp_r.
Qed.

Lemma mod_mul_add_idemp (x b d m : Z) :
  m ≠ 0 → (x mod m * b + d) mod m = (x * b + d) mod m.
Proof.
  intros Hm. rewrite <- Z.add_mod_idemp_l by done.
  rewrite Z.mul_mod_idemp_l by done. by rewrite Z.add_mod_idemp_l.
Qed.

Lemma rolling_update (base m a d : Z) (w : list Z) :
  m ≠ 0 →
  (((poly_val base (a :: w) mod m - Py.ord a * (base ^ Py.len w mod m)) mod m)
     * base + Py.ord d) mod m
  = poly_val base (w ++ [d]) mod m.
Proof.
  intros Hm. rewrite mod_sub_mul_idemp, mod_mul_add_idemp by done.
  rewrite poly_val_snoc. cbn [poly_val]. f_equal. lia.
Qed.

Lemma slice_window (text pattern : list Z) (i : nat) :
  (i + length pattern ≤ length text)%nat →
  Py.slice text (Z.of_nat i) (Z.of_nat i + Py.len pattern)
  = take (length pattern) (drop i text).
Proof.
  intros Hi.
  replace (Z.of_nat i + Py.len pattern) with (Z.of_nat (i + length pattern))
    by (unfold Py.len; lia).
  rewrite slice_nat by lia. f_equal. lia.
Qed.

Lemma slice_window_0 (text pattern : list Z) :
  (length pattern ≤ length text)%nat →
  Py.slice text 0 (Py.len pattern) = take (length pattern) text.
Proof. intros Hi. by apply (slice_window text pattern 0). Qed.

Lemma rk_body_spec (text pattern : list Z) (i : nat) :
  (0 < length pattern)%nat → (i + length pattern ≤ length text)%nat →
  let window k := take (length pattern) (drop k text) in
  let h := poly_val 256 (window i) mod 101 in
  rk_body text pattern (Py.len pattern) (Py.len text) 256 101
    (poly_val 256 pattern mod 101) (256 ^ (Py.len pattern - 1) mod 101)
    (Z.of_nat i) h
  = if bool_decide (window i = pattern) then Ok (Return (Z.of_nat i))
    else Ok (Continue
               (if decide (i + length pattern < length text)%nat
                then poly_val 256 (window (S i)) mod 101 else h)).
Proof.
  intros HM Hi window h. unfold rk_body.
  rewrite slice_window by lia. fold (window i).
  destruct (decide (window i = pattern)) as [Heq|Hneq].
  - rewrite !bool_decide_eq_true_2 by done. unfold h. rewrite Heq.
    by rewrite Z.eqb_refl.
  - rewrite !bool_decide_eq_false_2 by done. rewrite andb_false_r.
    destruct (Z.ltb_spec (Z.of_nat i) (Py.len text - Py.len pattern))
      as [Hlt|Hge]; unfold Py.len in *|-.
    2: { by rewrite decide_False by lia. }
    rewrite decide_True by lia.
    destruct (window_slide text i (length pattern)) as
      (a & d & w & Ha & Hd & Hw & Hwin & Hwin'); [lia..|].
    rewrite (getitem_nat _ _ _ Ha). py_run.
    rewrite mod_ok by done. py_run.
    replace (Z.of_nat i + Py.len pattern) with (Z.of_nat (i + length pattern))
      by (unfold Py.len; lia).
    rewrite (getitem_nat _ _ _ Hd). py_run.
    rewrite mod_ok by done. py_run.
    unfold h, window. rewrite Hwin, Hwin'.
    replace (Py.len pattern - 1) with (Py.len w) by (unfold Py.len; lia).
    rewrite rolling_update by done.
    destruct (Z.ltb_spec (poly_val 256 (w ++ [d]) mod 101) 0) as [Hneg|];
      [|done].
    pose proof (Z.mod_pos_bound (poly_val 256 (w ++ [d])) 101). lia.
Qed.

Lemma rounds_from_S (text pattern : list Z) (i n : nat) (l : list (Z * Z)) :
  rounds_from text pattern (S i) n
    ++ (Z.of_nat i, window_hash text pattern i) :: l
  = rounds_from text pattern i (S n) ++ l.
Proof.
  unfold rounds_from. cbn [seq fmap list_fmap].
  by rewrite reverse_cons, <- app_assoc.
Qed.

Lemma rk_for_spec (text pattern : list Z) (cnt i : nat)
    (rounds : list (Z * Z)) :
  (0 < length pattern)%nat →
  (i + cnt + length pattern = length text + 1)%nat →
  (∀ k, (k < i)%nat → ¬ occurs_at text pattern k) →
  ∃ r n, rk_for text pattern (Py.len pattern) (Py.len text) 256 101
           (poly_val 256 pattern mod 101)
           (256 ^ (Py.len pattern - 1) mod 101)
           (seqZ (Z.of_nat i) (Z.of_nat cnt))
           (window_hash text pattern i) rounds
         = Ok (r, rounds_from text pattern i n ++ rounds)
    ∧ first_match text pattern r
    ∧ ((0 ≤ r ∧ Z.of_nat (i + n) = r + 1 ∧ (n ≤ cnt)%nat)
       ∨ (r = -1 ∧ n = cnt)).
Proof.
  intros HM. revert i rounds.
  induction cnt as [|cnt IH]; intros i rounds Hi Hnone.
  - exists (-1), 0%nat. split_and!; [done| |by right].
    right. split; [done|]. intros k Hocc.
    destruct (decide (k < i)%nat); [by eapply Hnone|].
    apply occurs_at_length in Hocc. lia.
  - rewrite seqZ_cons by lia. cbn [rk_for]. unfold window_hash.
    rewrite (rk_body_spec text pattern i) by lia.
    fold (window_hash text pattern i).
    destruct (decide (take (length pattern) (drop i text) = pattern))
      as [Heq|Hneq].
    + rewrite bool_decide_eq_true_2 by done. py_run.
      exists (Z.of_nat i), 1%nat. split_and!; [done| |left; lia].
      left. rewrite Nat2Z.id.
      split_and!; [lia| |done]. apply occurs_at_slice. split; [lia|done].
    + rewrite bool_decide_eq_false_2 by done. py_run.
      replace (Z.succ (Z.of_nat i)) with (Z.of_nat (S i)) by lia.
      replace (Z.pred (Z.of_nat (S cnt))) with (Z.of_nat cnt) by lia.
      assert (∀ k, (k < S i)%nat → ¬ occurs_at text pattern k) as Hnone'.
      { intros k Hk. destruct (decide (k = i)) as [->|];
          [|apply Hnone; lia].
        by intros [_ Hocc]%occurs_at_slice. }
      destruct (decide (i + length pattern < length text)%nat).
      * fold (window_hash text pattern (S i)).
        destruct (IH (S i) ((Z.of_nat i, window_hash text pattern i) :: rounds))
          as (r & n & -> & Hfirst & Hn); [lia|done|].
        exists r, (S n). rewrite rounds_from_S.
        split_and!; [done..|]. destruct Hn as [?|?]; [left|right]; lia.
      * assert (cnt = 0%nat) as -> by lia. exists (-1), 1%nat.
        split_and!; [done| |by right].
        right. split; [done|]. intros k Hocc.
        destruct (decide (k < S i)%nat); [by eapply Hnone'|].
        apply occurs_at_length in Hocc. lia.
Qed.

(** What [rabin_karp_search_rounds] returns, on every input: the result,
    and the rounds [0], ..., [n-1] with the hashes of their windows. *)
Lemma rabin_karp_search_rounds_spec (text pattern : list Z) :
  ∃ r n, rabin_karp_search_rounds text pattern
         = Ok (r, rounds_from text pattern 0 n)
    ∧ (pattern ≠ [] → first_match text pattern r)
    ∧ (n ≠ 0%nat →
       (0 < length pattern)%nat
       ∧ (n + length pattern ≤ length text + 1)%nat)
    ∧ Z.of_nat n =
        (if 0 <=? r then r + 1
         else if (Py.len pattern =? 0) || (Py.len text =? 0)
                 || (Py.len text <? Py.len pattern)
              then 0
              else Py.len text - Py.len pattern + 1).
Proof.
  unfold rabin_karp_search_rounds.
  destruct (Z.eqb_spec (Py.len pattern) 0) as [H0|H0]; cbn [orb];
    unfold Py.len in H0.
  { exists (-1), 0%nat. split_and!; [done| |done..].
    intros Hne%length_pos. lia. }
  destruct (Z.eqb_spec (Py.len text) 0) as [Ht|Ht]; cbn [orb];
    unfold Py.len in Ht.
  { exists (-1), 0%nat. split_and!; [done| |done..].
    intros _. right. split; [done|].
    intros k Hocc%occurs_at_length. lia. }
  destruct (Z.ltb_spec (Py.len text) (Py.len pattern)) as [Hlt|Hge];
    unfold Py.len in *|-.
  { exists (-1), 0%nat. split_and!; [done| |done..].
    intros _. right. split; [done|].
    intros k Hocc%occurs_at_length. lia. }
  rewrite !polynomial_hash_mod by done. py_run.
  rewrite mod_ok by done. py_run.
  rewrite slice_window_0 by lia.
  replace (Py.len text - Py.len pattern + 1)
    with (Z.of_nat (length text - length pattern + 1))
    by (unfold Py.len; lia).
  destruct (rk_for_spec text pattern (length text - length pattern + 1) 0 [])
    as (r & n & Hrun & Hfirst & Hn); [lia|lia|intros k ?; lia|].
  unfold window_hash in Hrun at 1. rewrite drop_0 in Hrun.
  change (Z.of_nat 0) with 0 in Hrun. rewrite Hrun, app_nil_r.
  exists r, n. split_and!; [done|done|lia|].
  destruct Hn as [(Hr & Hn & _)|[-> ->]].
  - destruct (Z.leb_spec 0 r); lia.
  - simpl. unfold Py.len. lia.
Qed.

Lemma rabin_karp_search_correct (text pattern : list Z) :
  pattern ≠ [] →
  ∃ r, rabin_karp_search text pattern = Ok r ∧ first_match text pattern r.
Proof.
  intros Hne. unfold rabin_karp_search.
  destruct (rabin_karp_search_rounds_spec text pattern)
    as (r & n & -> & Hfirst & _).
  exists r. split; [done|]. by apply Hfirst.
Qed.

Lemma elem_of_rounds_from (text pattern : list Z) (n : nat) (i h : Z) :
  (i, h) ∈ rounds_from text pattern 0 n ↔
  ∃ k, (k < n)%nat ∧ i = Z.of_nat k ∧ h = window_hash text pattern k.
Proof.
  unfold rounds_from. rewrite elem_of_reverse, list_elem_of_fmap.
  split.
  - intros (k & [= -> ->] & Hk%elem_of_seq). exists k. split_and!; [lia|done..].
  - intros (k & Hk & -> & ->). exists k. split; [done|].
    apply elem_of_seq. lia.
Qed.

(** C4: rabin_karp_search enters the rounds 0, 1, 2, ... of its loop in
    order, up to the round it returns in, or all of them when it returns
    -1; and every round is entered with a [current_slice_hash] that is
    polynomial_hash of the window of that round, computed with base 256 and
    modulus 101, and that is in [0, 101). *)
Theorem rolling_hash_invariant (text pattern : list Z) :
  ∃ r rounds, rabin_karp_search_rounds text pattern = Ok (r, rounds)
    ∧ rabin_karp_search text pattern = Ok r
    ∧ (reverse rounds).*1 = seqZ 0 (Py.len rounds)
    ∧ Py.len rounds =
        (if 0 <=? r then r + 1
         else if (Py.len pattern =? 0) || (Py.len text =? 0)
                 || (Py.len text <? Py.len pattern)
              then 0
              else Py.len text - Py.len pattern + 1)
    ∧ ∀ i h, (i, h) ∈ rounds →
        0 ≤ i ≤ Py.len text - Py.len pattern
        ∧ polynomial_hash (Py.slice text i (i + Py.len pattern)) 256 101
          = Ok h
        ∧ 0 ≤ h < 101.
Proof.
  destruct (rabin_karp_search_rounds_spec text pattern)
    as (r & n & Hrun & _ & Hn & Hcount).
  exists r, (rounds_from text pattern 0 n).
  assert (Py.len (rounds_from text pattern 0 n) = Z.of_nat n) as Hlen.
  { unfold Py.len, rounds_from.
    by rewrite length_reverse, length_fmap, length_seq. }
  split_and!.
  - done.
  - unfold rabin_karp_search. by rewrite Hrun.
  - rewrite Hlen. unfold rounds_from. rewrite reverse_involutive.
    rewrite <- list_fmap_compose. unfold seqZ.
    change 0%nat with (Z.to_nat 0) at 1. rewrite Nat2Z.id.
    apply list_fmap_ext. intros ? k _. simpl. lia.
  - by rewrite Hlen.
  - intros i h (k & Hk & -> & ->)%elem_of_rounds_from.
    destruct Hn as [HM Hbound]; [lia|].
    split; [unfold Py.len; lia|]. split.
    + rewrite slice_window by lia. by apply polynomial_hash_mod.
    + by apply Z.mod_pos_bound.
Qed.

(** X17: rabin_karp_search enters every round k that is at or before the
    first occurrence of the pattern, and enters it with a
    [current_slice_hash] that is polynomial_hash of the window of round
    k. *)
Theorem rabin_karp_rounds_reached (text pattern : list Z) (k : nat)
    (HM : (0 < length pattern)%nat)
    (Hk : (k + length pattern ≤ length text)%nat)
    (Hnone : ∀ k', (k' < k)%nat → ¬ occurs_at text pattern k') :
  ∃ r rounds h, rabin_karp_search_rounds text pattern = Ok (r, rounds)
    ∧ (Z.of_nat k, h) ∈ rounds
    ∧ polynomial_hash
        (Py.slice text (Z.of_nat k) (Z.of_nat k + Py.len pattern)) 256 101
      = Ok h.
Proof.
  destruct (rabin_karp_search_rounds_spec text pattern)
    as (r & n & Hrun & Hfirst & _ & Hcount).
  exists r, (rounds_from text pattern 0 n), (window_hash text pattern k).
  split_and!; [done| |].
  - apply elem_of_rounds_from. exists k. split_and!; [|done..].
    destruct Hfirst as [(Hr & Hocc & _)|[-> _]].
    + intros ->. simpl in HM. lia.
    + destruct (Z.leb_spec 0 r); [|lia].
      destruct (decide (Z.to_nat r < k)%nat) as [Hlt|]; [|lia].
      by destruct (Hnone _ Hlt).
    + unfold Py.len in Hcount.
      destruct (Z.eqb_spec (Z.of_nat (length pattern)) 0); [lia|].
      destruct (Z.eqb_spec (Z.of_nat (length text)) 0); [lia|].
      destruct (Z.ltb_spec (Z.of_nat (length text))
                  (Z.of_nat (length pattern))); [lia|].
      simpl in Hcount. lia.
  - rewrite slice_window by lia. by apply polynomial_hash_mod.
Qed.

Lemma rabin_karp_rounds_reached_witness :
  (0 < length (Py.str "FOR"))%nat
  ∧ (1 + length (Py.str "FOR") ≤ length (Py.str "GEEKS FOR GEEKS"))%nat
  ∧ (∀ k', (k' < 1)%nat →
           ¬ occurs_at (Py.str "GEEKS FOR GEEKS") (Py.str "FOR") k')
  ∧ ∃ r rounds h,
      rabin_karp_search_rounds (Py.str "GEEKS FOR GEEKS") (Py.str "FOR")
      = Ok (r, rounds)
      ∧ (Z.of_nat 1, h) ∈ rounds
      ∧ polynomial_hash
          (Py.slice (Py.str "GEEKS FOR GEEKS") (Z.of_nat 1)
             (Z.of_nat 1 + Py.len (Py.str "FOR"))) 256 101
        = Ok h.
Proof.
  assert (∀ k', (k' < 1)%nat →
            ¬ occurs_at (Py.str "GEEKS FOR GEEKS") (Py.str "FOR") k') as H.
  { intros k' Hk' [_ Hocc]%occurs_at_lookup.
    assert (k' = 0%nat) as -> by lia.
    specialize (Hocc 0%nat ltac:(simpl; lia)). done. }
  split_and!; [simpl; lia|simpl; lia|exact H|].
  apply (rabin_karp_rounds_reached (Py.str "GEEKS FOR GEEKS")
           (Py.str "FOR") 1); [simpl; lia|simpl; lia|exact H].
Defined.

Example rabin_karp_search_rounds_scenario :
  rabin_karp_search_rounds (Py.str "GEEKS FOR GEEKS") (Py.str "S F")
  = Ok (4, [(4, 12); (3, 4); (2, 4); (1, 76); (0, 44)]).
Proof. by vm_compute. Qed.

(** ** The three searches *)

Lemma first_match_unique (text pattern : list Z) (r1 r2 : Z) :
  first_match text pattern r1 → first_match text pattern r2 → r1 = r2.
Proof.
  intros [(H1 & Ho1 & Hm1)|[-> Hn1]] [(H2 & Ho2 & Hm2)|[-> Hn2]].
  - destruct (decide (r1 < r2)).
    { destruct (Hm2 (Z.to_nat r1)); [lia|done]. }
    destruct (decide (r2 < r1)); [|lia].
    destruct (Hm1 (Z.to_nat r2)); [lia|done].
  - by destruct (Hn2 _ Ho1).
  - by destruct (Hn1 _ Ho2).
  - done.
Qed.

(** X1: on every text and every non-empty pattern the three searches
    return the same index, or all return -1. *)
Lemma search_agreement_nonempty (text pattern : list Z) :
  pattern ≠ [] →
  ∃ r, boyer_moore_search text pattern = Ok r
    ∧ kmp_search text pattern = Ok r
    ∧ rabin_karp_search text pattern = Ok r.
Proof.
  intros Hne.
  destruct (boyer_moore_search_correct text pattern Hne) as (r1 & H1 & Hf1).
  destruct (kmp_search_correct text pattern Hne) as (r2 & H2 & Hf2).
  destruct (rabin_karp_search_correct text pattern Hne) as (r3 & H3 & Hf3).
  exists r1. split; [done|].
  by rewrite (first_match_unique _ _ _ _ Hf1 Hf2) at 1;
    rewrite (first_match_unique _ _ _ _ Hf1 Hf3).
Qed.

Lemma search_agreement_nonempty_witness :
  Py.str "EXAMPLE" ≠ [] ∧
  ∃ r, boyer_moore_search (Py.str "HERE IS A SIMPLE EXAMPLE")
         (Py.str "EXAMPLE") = Ok r
    ∧ kmp_search (Py.str "HERE IS A SIMPLE EXAMPLE") (Py.str "EXAMPLE")
      = Ok r
    ∧ rabin_karp_search (Py.str "HERE IS A SIMPLE EXAMPLE")
        (Py.str "EXAMPLE") = Ok r.
Proof.
  split; [done|].
  by apply (search_agreement_nonempty (Py.str "HERE IS A SIMPLE EXAMPLE")
              (Py.str "EXAMPLE")).
Defined.

(** C1: for every text and every non-empty pattern, each of
    boyer_moore_search, kmp_search and rabin_karp_search returns the
    smallest index at which the pattern occurs in the text, and -1 when it
    occurs nowhere. *)
Theorem searches_return_first_match (text pattern : list Z)
    (Hne : pattern ≠ []) :
  (∃ r, boyer_moore_search text pattern = Ok r ∧ first_match text pattern r)
  ∧ (∃ r, kmp_search text pattern = Ok r ∧ first_match text pattern r)
  ∧ (∃ r, rabin_karp_search text pattern = Ok r
          ∧ first_match text pattern r).
Proof.
  split_and!.
  - by apply boyer_moore_search_correct.
  - by apply kmp_search_correct.
  - by apply rabin_karp_search_correct.
Qed.

Lemma searches_return_first_match_witness :
  Py.str "EXAMPLE" ≠ [] ∧
  ((∃ r, boyer_moore_search (Py.str "HERE IS A SIMPLE EXAMPLE")
           (Py.str "EXAMPLE") = Ok r
         ∧ first_match (Py.str "HERE IS A SIMPLE EXAMPLE")
             (Py.str "EXAMPLE") r)
   ∧ (∃ r, kmp_search (Py.str "HERE IS A SIMPLE EXAMPLE")
             (Py.str "EXAMPLE") = Ok r
           ∧ first_match (Py.str "HERE IS A SIMPLE EXAMPLE")
               (Py.str "EXAMPLE") r)
   ∧ (∃ r, rabin_karp_search (Py.str "HERE IS A SIMPLE EXAMPLE")
             (Py.str "EXAMPLE") = Ok r
           ∧ first_match (Py.str "HERE IS A SIMPLE EXAMPLE")
               (Py.str "EXAMPLE") r)).
Proof.
  split; [done|].
  by apply (searches_return_first_match
              (Py.str "HERE IS A SIMPLE EXAMPLE") (Py.str "EXAMPLE")).
Defined.

(** C2, at the input where it fails: on the text "x" and the empty pattern
    kmp_search raises IndexError, where boyer_moore_search and
    rabin_karp_search return -1. *)
Theorem searches_disagree_on_empty_pattern :
  kmp_search (Py.str "x") (Py.str "") = Raise IndexError
  ∧ boyer_moore_search (Py.str "x") (Py.str "") = Ok (-1)
  ∧ rabin_karp_search (Py.str "x") (Py.str "") = Ok (-1).
Proof. done. Qed.

(** ** Degenerate inputs *)

(** X2: boyer_moore_search returns -1, and raises no error, when the
    pattern is empty, the text is empty or the pattern is longer than the
    text. *)
Lemma boyer_moore_search_degenerate (text pattern : list Z) :
  pattern = [] ∨ text = [] ∨ (length text < length pattern)%nat →
  boyer_moore_search text pattern = Ok (-1).
Proof.
  intros Hdeg. destruct (decide (pattern = [])) as [->|Hne].
  { unfold boyer_moore_search. by rewrite bool_decide_eq_true_2. }
  destruct (boyer_moore_search_correct text pattern Hne)
    as (r & -> & [(_ & Hocc%occurs_at_length & _)|[-> _]]); [|done].
  destruct Hdeg as [->|[->|Hlt]]; [done| |lia].
  destruct pattern; [done|simpl in Hocc; lia].
Qed.

Lemma boyer_moore_search_degenerate_witness :
  (Py.str "abc" = [] ∨ Py.str "ab" = []
   ∨ (length (Py.str "ab") < length (Py.str "abc"))%nat)
  ∧ boyer_moore_search (Py.str "ab") (Py.str "abc") = Ok (-1).
Proof.
  assert (Py.str "abc" = [] ∨ Py.str "ab" = []
          ∨ (length (Py.str "ab") < length (Py.str "abc"))%nat) as H
    by (right; right; simpl; lia).
  split; [exact H|].
  exact (boyer_moore_search_degenerate (Py.str "ab") (Py.str "abc") H).
Defined.

(** X3: rabin_karp_search returns -1, and raises no error, when the
    pattern is empty, the text is empty or the pattern is longer than the
    text. *)
Lemma rabin_karp_search_degenerate (text pattern : list Z) :
  pattern = [] ∨ text = [] ∨ (length text < length pattern)%nat →
  rabin_karp_search text pattern = Ok (-1).
Proof.
  intros Hdeg. destruct (decide (pattern = [])) as [->|Hne]; [done|].
  destruct (rabin_karp_search_correct text pattern Hne)
    as (r & -> & [(_ & Hocc%occurs_at_length & _)|[-> _]]); [|done].
  destruct Hdeg as [->|[->|Hlt]]; [done| |lia].
  destruct pattern; [done|simpl in Hocc; lia].
Qed.

Lemma rabin_karp_search_degenerate_witness :
  (Py.str "abc" = [] ∨ Py.str "ab" = []
   ∨ (length (Py.str "ab") < length (Py.str "abc"))%nat)
  ∧ rabin_karp_search (Py.str "ab") (Py.str "abc") = Ok (-1).
Proof.
  assert (Py.str "abc" = [] ∨ Py.str "ab" = []
          ∨ (length (Py.str "ab") < length (Py.str "abc"))%nat) as H
    by (right; right; simpl; lia).
  split; [exact H|].
  exact (rabin_karp_search_degenerate (Py.str "ab") (Py.str "abc") H).
Defined.

(** X4: on a non-empty pattern, kmp_search returns -1 when the text is
    empty or the pattern is longer than the text. *)
Lemma kmp_search_degenerate (text pattern : list Z) :
  pattern ≠ [] →
  text = [] ∨ (length text < length pattern)%nat →
  kmp_search text pattern = Ok (-1).
Proof.
  intros Hne Hdeg.
  destruct (kmp_search_correct text pattern Hne)
    as (r & -> & [(_ & Hocc%occurs_at_length & _)|[-> _]]); [|done].
  destruct Hdeg as [->|Hlt]; [|lia].
  destruct pattern; [done|simpl in Hocc; lia].
Qed.

Lemma kmp_search_degenerate_witness :
  Py.str "abc" ≠ []
  ∧ (Py.str "ab" = [] ∨ (length (Py.str "ab") < length (Py.str "abc"))%nat)
  ∧ kmp_search (Py.str "ab") (Py.str "abc") = Ok (-1).
Proof.
  assert (Py.str "ab" = []
          ∨ (length (Py.str "ab") < length (Py.str "abc"))%nat) as H
    by (right; simpl; lia).
  split; [done|]. split; [exact H|].
  by apply (kmp_search_degenerate (Py.str "ab") (Py.str "abc")).
Defined.

Lemma kmp_search_empty_empty : kmp_search [] [] = Ok (-1).
Proof. done. Qed.

(** C3, at the inputs where it fails: on an empty pattern and a non-empty
    text kmp_search raises IndexError, where the claim has it return -1. *)
Theorem kmp_search_empty_pattern_raises (text : list Z) (Hne : text ≠ []) :
  kmp_search text [] = Raise IndexError.
Proof.
  unfold kmp_search. change (compute_lps []) with (Ok (@nil Z)).
  py_run. destruct text as [|t text]; [done|].
  cbn [kmp_loop Nat.add Nat.mul length]. rewrite len_cons.
  destruct (Z.ltb_spec 0 (Py.len text + 1)) as [_|Hge].
  - by rewrite getitem_empty.
  - pose proof (len_nonneg text). lia.
Qed.

Lemma kmp_search_empty_pattern_raises_witness :
  Py.str "x" ≠ [] ∧ kmp_search (Py.str "x") [] = Raise IndexError.
Proof.
  split; [done|]. by apply (kmp_search_empty_pattern_raises (Py.str "x")).
Defined.

(** C5 as the spec states it does not hold: the search does not return
    15. *)
Lemma kmp_search_scenario_not_15 :
  kmp_search (Py.str "ABABDABACDABABCABAB") (Py.str "ABABCABAB") ≠ Ok 15.
Proof. by vm_compute. Qed.

(** C5, amended: kmp_search applied to the text "ABABDABACDABABCABAB" and
    the pattern "ABABCABAB" returns 10, the offset of the first occurrence
    of the pattern. *)
Theorem kmp_search_scenario :
  kmp_search (Py.str "ABABDABACDABABCABAB") (Py.str "ABABCABAB") = Ok 10
  ∧ first_match (Py.str "ABABDABACDABABCABAB") (Py.str "ABABCABAB") 10.
Proof.
  destruct (kmp_search_correct (Py.str "ABABDABACDABABCABAB")
              (Py.str "ABABCABAB")) as (r & Hrun & Hfirst); [done|].
  assert (r = 10) as -> by (vm_compute in Hrun; congruence).
  split; [by vm_compute|done].
Qed.

(** C8 as the spec states it does not hold: on the empty pattern
    build_shift_table returns no mapping. *)
Lemma build_shift_table_empty_no_mapping :
  ¬ ∃ table, build_shift_table [] = Ok table.
Proof. by intros [table Htable]. Qed.

(** C8, amended: build_shift_table raises IndexError on the empty pattern
    and returns a mapping on every non-empty pattern; boyer_moore_search
    returns -1 on the empty pattern without calling it. *)
Theorem build_shift_table_defined (pattern text : list Z)
    (Hne : pattern ≠ []) :
  build_shift_table [] = Raise IndexError
  ∧ (∃ table, build_shift_table pattern = Ok table)
  ∧ boyer_moore_search text [] = Ok (-1).
Proof.
  split_and!; [done| |done].
  destruct (last_is_Some pattern Hne) as [final Hfinal].
  destruct (build_shift_table_lookup pattern final Hfinal) as (table & ? & _).
  by exists table.
Qed.

Lemma build_shift_table_defined_witness :
  Py.str "EXAMPLE" ≠ [] ∧
  (build_shift_table [] = Raise IndexError
   ∧ (∃ table, build_shift_table (Py.str "EXAMPLE") = Ok table)
   ∧ boyer_moore_search (Py.str "HERE IS A SIMPLE EXAMPLE") [] = Ok (-1)).
Proof.
  split; [done|].
  by apply (build_shift_table_defined (Py.str "EXAMPLE")
              (Py.str "HERE IS A SIMPLE EXAMPLE")).
Defined.

(** ** float_binary_search on any array *)

(** One step of a computation in [counting]. *)
Ltac count_run :=
  unfold mbind, counting_bind, mret, counting_ret, lift, compare_ge;
  cbn beta iota.

Section BinarySearchAny.
Context {A : Type} (geb : A → A → bool).

(** The loop on any array, in order or not: it returns, it has counted one
    round for each comparison, the number of rounds is fixed by the size of
    the range within one, and a bound it returns is an element that is
    [>= x]. *)
Lemma bs_loop_any (arr : list A) (x : A) (fuel lo hi : nat) (iterations : Z)
    (upper_bound : option A) (comparisons : Z) :
  (lo ≤ hi ≤ length arr)%nat →
  (hi - lo < fuel)%nat →
  (∀ v, upper_bound = Some v → v ∈ arr ∧ geb v x = true) →
  ∃ iterations' ub comparisons',
    bs_loop geb fuel arr x (Z.of_nat lo) (Z.of_nat hi - 1) iterations
      upper_bound comparisons = Ok (iterations', ub, comparisons')
    ∧ iterations' - iterations = comparisons' - comparisons
    ∧ (∀ k : nat, Z.of_nat (hi - lo) < 2 ^ Z.of_nat k →
                  iterations' ≤ iterations + Z.of_nat k)
    ∧ (∀ k : nat, 2 ^ Z.of_nat k - 1 ≤ Z.of_nat (hi - lo) →
                  iterations + Z.of_nat k ≤ iterations')
    ∧ (∀ v, ub = Some v → v ∈ arr ∧ geb v x = true).
Proof.
  revert lo hi iterations upper_bound comparisons.
  induction fuel as [|fuel IH];
    intros lo hi iterations upper_bound comparisons Hlohi Hfuel Hub; [lia|].
  cbn [bs_loop].
  destruct (Z.leb_spec (Z.of_nat lo) (Z.of_nat hi - 1)) as [Hle|Hgt].
  - set (mid := (Z.of_nat lo + (Z.of_nat hi - 1)) `div` 2).
    assert (2 * mid ≤ Z.of_nat lo + (Z.of_nat hi - 1) ≤ 2 * mid + 1) as Hmid.
    { unfold mid.
      pose proof (Z.div_mod (Z.of_nat lo + (Z.of_nat hi - 1)) 2 ltac:(lia)).
      pose proof (Z.mod_pos_bound (Z.of_nat lo + (Z.of_nat hi - 1)) 2
                    ltac:(lia)).
      lia. }
    clearbody mid. assert (0 ≤ mid) as Hmid0 by lia.
    destruct (lookup_lt_is arr (Z.to_nat mid)) as [a Ha]; [lia|].
    rewrite (getitem_Z _ _ _ Hmid0 Ha). count_run.
    assert (∀ k : nat, 2 ^ Z.of_nat (S k) = 2 * 2 ^ Z.of_nat k) as Hpow.
    { intros k. rewrite Nat2Z.inj_succ. apply Z.pow_succ_r. lia. }
    assert (∀ k : nat, 0 < 2 ^ Z.of_nat k) as Hpos
      by (intros k; apply Z.pow_pos_nonneg; lia).
    destruct (geb a x) eqn:Hax.
    + count_run.
      replace (mid - 1) with (Z.of_nat (Z.to_nat mid) - 1) by lia.
      destruct (IH lo (Z.to_nat mid) (iterations + 1) (Some a)
                  (comparisons + 1))
        as (it & ub & n & -> & Hcount & Hup & Hlow & Hsound); [lia|lia| |].
      { intros v [= <-]. split; [by eapply list_elem_of_lookup_2|done]. }
      exists it, ub, n. split_and!; [done|lia| | |done].
      * intros [|k] Hk; [simpl in Hk; lia|]. rewrite Hpow in Hk.
        specialize (Hup k). lia.
      * intros [|k] Hk; [specialize (Hlow 0%nat); simpl in Hlow; lia|].
        rewrite Hpow in Hk. specialize (Hlow k). lia.
    + replace (mid + 1) with (Z.of_nat (S (Z.to_nat mid))) by lia.
      destruct (IH (S (Z.to_nat mid)) hi (iterations + 1) upper_bound
                  (comparisons + 1))
        as (it & ub & n & -> & Hcount & Hup & Hlow & Hsound);
        [lia|lia|done|].
      exists it, ub, n. split_and!; [done|lia| | |done].
      * intros [|k] Hk; [simpl in Hk; lia|]. rewrite Hpow in Hk.
        specialize (Hup k). lia.
      * intros [|k] Hk; [specialize (Hlow 0%nat); simpl in Hlow; lia|].
        rewrite Hpow in Hk. specialize (Hlow k). lia.
  - exists iterations, upper_bound, comparisons.
    split_and!; [done|lia| | |done].
    + intros k _. lia.
    + intros [|k] Hk; [lia|].
      assert (0 < 2 ^ Z.of_nat k) by (apply Z.pow_pos_nonneg; lia).
      rewrite Nat2Z.inj_succ, Z.pow_succ_r in Hk by lia. lia.
Qed.

(** The whole search on any array: the iterations are the comparisons, and
    their number is between the floor and the ceiling of log2 (n + 1). *)
Lemma float_binary_search_counted_any (arr : list A) (x : A) :
  ∃ iterations ub,
    float_binary_search_counted geb arr x = Ok (iterations, ub, iterations)
    ∧ Z.log2 (Py.len arr + 1) ≤ iterations ≤ Z.log2_up (Py.len arr + 1)
    ∧ (∀ v, ub = Some v → v ∈ arr ∧ geb v x = true).
Proof.
  unfold float_binary_search_counted.
  destruct (bs_loop_any arr x (S (length arr)) 0 (length arr) 0 None 0)
    as (it & ub & n & Hrun & Hcount & Hup & Hlow & Hsound); [lia|lia|done|].
  change (Z.of_nat 0) with 0 in Hrun.
  change (Z.of_nat (length arr)) with (Py.len arr) in Hrun.
  rewrite Hrun. assert (n = it) as -> by lia.
  exists it, ub. split_and!; [done| | |done].
  - rewrite Nat.sub_0_r in Hlow. fold (Py.len arr) in Hlow.
    pose proof (len_nonneg arr) as Hn.
    pose proof (Z.log2_nonneg (Py.len arr + 1)) as Hl.
    specialize (Hlow (Z.to_nat (Z.log2 (Py.len arr + 1)))).
    rewrite Z2Nat.id in Hlow by done.
    pose proof (Z.log2_spec (Py.len arr + 1) ltac:(lia)). lia.
  - rewrite Nat.sub_0_r in Hup. fold (Py.len arr) in Hup.
    pose proof (len_nonneg arr) as Hn.
    pose proof (Z.log2_up_nonneg (Py.len arr + 1)) as Hlu.
    specialize (Hup (Z.to_nat (Z.log2_up (Py.len arr + 1)))).
    rewrite Z2Nat.id in Hup by done.
    destruct (decide (Py.len arr = 0)) as [H0|H0].
    + rewrite H0 in Hup |- *. change (Z.log2_up (0 + 1)) with 0 in *. lia.
    + pose proof (Z.log2_up_spec (Py.len arr + 1) ltac:(lia)). lia.
Qed.

(** X18: on any array, in order or not, float_binary_search raises no
    error; a bound it returns is an element of the array that is >= x. *)
Theorem float_binary_search_any (arr : list A) (x : A) :
  ∃ iterations ub,
    float_binary_search geb arr x = Ok (iterations, ub)
    ∧ match ub with
      | Some v => v ∈ arr ∧ geb v x = true
      | None => True
      end.
Proof.
  unfold float_binary_search.
  destruct (float_binary_search_counted_any arr x)
    as (it & ub & -> & _ & Hsound).
  exists it, ub. split; [done|].
  destruct ub as [v|]; [by apply Hsound|done].
Qed.

(** X19: on any array of n elements, in order or not, the number of
    iterations that float_binary_search returns is between the floor and
    the ceiling of log2 (n + 1). *)
Theorem float_binary_search_iterations (arr : list A) (x : A) :
  ∃ iterations ub,
    float_binary_search geb arr x = Ok (iterations, ub)
    ∧ Z.log2 (Py.len arr + 1) ≤ iterations ≤ Z.log2_up (Py.len arr + 1).
Proof.
  unfold float_binary_search.
  destruct (float_binary_search_counted_any arr x)
    as (it & ub & -> & Hbounds & _).
  by exists it, ub.
Qed.

End BinarySearchAny.

(** ** float_binary_search on an array in order *)

Section BinarySearchCorrect.
Context {A : Type} (geb : A → A → bool).
Hypothesis geb_trans : ∀ a b c, geb a b = true → geb b c = true →
                                geb a c = true.

Lemma bs_loop_spec (arr : list A) (x : A) (fuel lo hi : nat)
    (iterations comparisons : Z) :
  (∀ a, a ∈ arr → geb a a = true) →
  sorted_by geb arr →
  (lo ≤ hi ≤ length arr)%nat →
  (∀ k a, (k < lo)%nat → arr !! k = Some a → geb a x = false) →
  (∀ k a, (hi ≤ k)%nat → arr !! k = Some a → geb a x = true) →
  (hi - lo < fuel)%nat →
  ∃ iterations' ub comparisons',
    bs_loop geb fuel arr x (Z.of_nat lo) (Z.of_nat hi - 1)
      iterations (arr !! hi) comparisons = Ok (iterations', ub, comparisons')
    ∧ smallest_ge geb arr x ub.
Proof.
  intros Hrefl Hsorted. revert lo hi iterations comparisons.
  induction fuel as [|fuel IH];
    intros lo hi iterations comparisons Hlohi Hlow Hhigh Hfuel; [lia|].
  cbn [bs_loop].
  destruct (Z.leb_spec (Z.of_nat lo) (Z.of_nat hi - 1)) as [Hle|Hgt].
  - set (mid := (Z.of_nat lo + (Z.of_nat hi - 1)) `div` 2).
    assert (Z.of_nat lo ≤ mid < Z.of_nat hi) as Hmid.
    { unfold mid. split.
      - apply Z.div_le_lower_bound; lia.
      - apply Z.div_lt_upper_bound; lia. }
    clearbody mid. assert (0 ≤ mid) as Hmid0 by lia.
    destruct (lookup_lt_is arr (Z.to_nat mid)) as [a Ha]; [lia|].
    rewrite (getitem_Z _ _ _ Hmid0 Ha). count_run.
    destruct (geb a x) eqn:Hax.
    + count_run. rewrite <- Ha.
      replace (mid - 1) with (Z.of_nat (Z.to_nat mid) - 1) by lia.
      apply IH; [lia|done| |lia].
      intros k b Hk Hb. destruct (decide (k = Z.to_nat mid)) as [->|].
      * congruence.
      * apply (geb_trans b a x); [|done].
        apply (Hsorted (Z.to_nat mid) k); [lia|done..].
    + replace (mid + 1) with (Z.of_nat (S (Z.to_nat mid))) by lia.
      apply IH; [lia| |done|lia].
      intros k b Hk Hb. destruct (decide (k = Z.to_nat mid)) as [->|].
      * congruence.
      * destruct (geb b x) eqn:Hbx; [|done]. rewrite <- Hax. symmetry.
        apply (geb_trans a b x); [|done].
        apply (Hsorted k (Z.to_nat mid)); [lia|done..].
  - assert (lo = hi) as -> by lia.
    exists iterations, (arr !! hi), comparisons. split; [done|].
    destruct (arr !! hi) as [v|] eqn:Hv; simpl.
    + assert (v ∈ arr) as Hin by by eapply list_elem_of_lookup_2.
      split_and!.
      * done.
      * by apply (Hhigh hi).
      * intros w [k Hk]%list_elem_of_lookup_1 Hwx.
        destruct (decide (k < hi)%nat) as [Hlt|Hge].
        { rewrite (Hlow k w Hlt Hk) in Hwx. done. }
        destruct (decide (k = hi)) as [->|].
        { assert (w = v) as -> by congruence. by apply Hrefl. }
        apply (Hsorted hi k); [lia|done..].
    + apply lookup_ge_None in Hv.
      intros w [k Hk]%list_elem_of_lookup_1. apply (Hlow k); [|done].
      apply lookup_lt_Some in Hk. lia.
Qed.

(** C9: on an array of numbers in non-decreasing order, float_binary_search
    returns the number of comparisons [arr[mid] >= x] it has performed,
    which is between the floor and the ceiling of log2 (n + 1) for n
    elements, and the smallest element that is >= x, or None when no
    element is >= x. *)
Theorem float_binary_search_spec (arr : list A) (x : A)
    (Hrefl : ∀ a, a ∈ arr → geb a a = true)
    (Hsorted : sorted_by geb arr) :
  ∃ iterations ub comparisons,
    float_binary_search_counted geb arr x = Ok (iterations, ub, comparisons)
    ∧ float_binary_search geb arr x = Ok (iterations, ub)
    ∧ iterations = comparisons
    ∧ Z.log2 (Py.len arr + 1) ≤ iterations ≤ Z.log2_up (Py.len arr + 1)
    ∧ smallest_ge geb arr x ub.
Proof.
  destruct (float_binary_search_counted_any geb arr x)
    as (it & ub & Hrun & Hbounds & _).
  exists it, ub, it. unfold float_binary_search. rewrite Hrun.
  do 3 (split; [done|]). split; [exact Hbounds|].
  destruct (bs_loop_spec arr x (S (length arr)) 0 (length arr) 0 0
              Hrefl Hsorted)
    as (it' & ub' & n' & Hrun' & Hub).
  - lia.
  - intros k a ?. lia.
  - intros k a Hk Ha. apply lookup_lt_Some in Ha. lia.
  - lia.
  - rewrite (lookup_ge_None_2 arr (length arr)) in Hrun' by lia.
    unfold float_binary_search_counted in Hrun.
    change (Z.of_nat 0) with 0 in Hrun'.
    change (Z.of_nat (length arr)) with (Py.len arr) in Hrun'.
    rewrite Hrun in Hrun'. by injection Hrun' as -> -> ->.
Qed.

End BinarySearchCorrect.

Lemma float_binary_search_spec_witness :
  (∀ a : Z, a ∈ [1; 3; 5; 7; 9] → Z.geb a a = true)
  ∧ sorted_by Z.geb [1; 3; 5; 7; 9]
  ∧ ∃ iterations ub comparisons,
      float_binary_search_counted Z.geb [1; 3; 5; 7; 9] 4
        = Ok (iterations, ub, comparisons)
      ∧ float_binary_search Z.geb [1; 3; 5; 7; 9] 4 = Ok (iterations, ub)
      ∧ iterations = comparisons
      ∧ Z.log2 (Py.len [1; 3; 5; 7; 9] + 1) ≤ iterations
          ≤ Z.log2_up (Py.len [1; 3; 5; 7; 9] + 1)
      ∧ smallest_ge Z.geb [1; 3; 5; 7; 9] 4 ub.
Proof.
  assert (∀ a b : Z, Z.geb a b = true ↔ b ≤ a) as Hgeb.
  { intros a b. rewrite Z.geb_leb. apply Z.leb_le. }
  assert (∀ a : Z, a ∈ [1; 3; 5; 7; 9] → Z.geb a a = true) as Hrefl.
  { intros a _. apply Hgeb. lia. }
  assert (sorted_by Z.geb [1; 3; 5; 7; 9]) as Hsorted.
  { intros i j a b Hij Ha Hb. apply Hgeb.
    do 5 (destruct i as [|i]; [do 5 (destruct j as [|j]; [simplify_eq/=; lia|]);
                               simplify_eq/=|]).
    simplify_eq/=. }
  split; [exact Hrefl|]. split; [exact Hsorted|].
  apply (float_binary_search_spec Z.geb); [|exact Hrefl|exact Hsorted].
  intros a b c Hab%Hgeb Hbc%Hgeb. apply Hgeb. lia.
Defined.

(** ** Scenarios *)

Example boyer_moore_search_scenario :
  boyer_moore_search (Py.str "HERE IS A SIMPLE EXAMPLE") (Py.str "EXAMPLE")
  = Ok 17.
Proof. by vm_compute. Qed.

Example rabin_karp_search_scenario :
  rabin_karp_search (Py.str "GEEKS FOR GEEKS") (Py.str "GEEK") = Ok 0
  ∧ rabin_karp_search (Py.str "abc") (Py.str "") = Ok (-1).
Proof. by vm_compute. Qed.

Example compute_lps_scenario :
  compute_lps (Py.str "ABABCABAB") = Ok [0; 0; 1; 2; 0; 1; 2; 3; 4].
Proof. by vm_compute. Qed.

Example float_binary_search_scenario :
  float_binary_search Z.geb [1; 3; 5; 7; 9] 4 = Ok (3, Some 5)
  ∧ float_binary_search Z.geb [1; 3; 5; 7; 9] 10 = Ok (3, None)
  ∧ float_binary_search Z.geb [] 0 = Ok (0, None).
Proof. by vm_compute. Qed.

(** ** More on build_shift_table *)

Lemma init_final (pattern : list Z) (final : Z) :
  last pattern = Some final →
  pattern = take (length pattern - 1) pattern ++ [final].
Proof.
  intros [l' ->]%last_Some. rewrite length_app. simpl.
  replace (length l' + 1 - 1)%nat with (length l') by lia.
  by rewrite take_app_length.
Qed.

(** X10: the keys of the table of a non-empty pattern are the units of the
    pattern; every stored shift, and every shift looked up with the pattern
    length as default, is between 1 and the pattern length; a unit that is
    not in the pattern is looked up as the pattern length. *)
Theorem build_shift_table_keys (pattern : list Z) (Hne : pattern ≠ []) :
  ∃ table, build_shift_table pattern = Ok table
    ∧ dom table = list_to_set pattern
    ∧ (∀ c v, table !! c = Some v → 1 ≤ v ≤ Py.len pattern)
    ∧ (∀ c, 1 ≤ Py.get table c (Py.len pattern) ≤ Py.len pattern)
    ∧ (∀ c, c ∉ pattern → Py.get table c (Py.len pattern) = Py.len pattern).
Proof.
  destruct (last_is_Some pattern Hne) as [final Hfinal].
  destruct (build_shift_table_lookup pattern final Hfinal)
    as (table & Hrun & Htbl).
  pose proof (length_pos pattern Hne) as HM.
  pose proof (init_final pattern final Hfinal) as Hsplit.
  assert (∀ c v, table !! c = Some v → 1 ≤ v ≤ Py.len pattern) as Hrange.
  { intros c v. rewrite Htbl. unfold Py.len.
    destruct (last_occ _ c) as [k|] eqn:Ek.
    - apply last_occ_Some in Ek as [Ek _].
      apply lookup_take_Some in Ek as [_ Ek]. intros [= <-]. lia.
    - destruct (decide (c = final)); [|done]. intros [= <-]. lia. }
  exists table. split_and!; [done| |done| |].
  - apply set_eq. intros c. rewrite elem_of_dom, elem_of_list_to_set.
    rewrite Hsplit at 1. rewrite elem_of_app, list_elem_of_singleton.
    rewrite Htbl. destruct (last_occ _ c) as [k|] eqn:Ek.
    + split; [|by eexists]. intros _. left.
      apply last_occ_Some in Ek as [Ek _]. by eapply list_elem_of_lookup_2.
    + apply last_occ_None in Ek. destruct (decide (c = final)).
      * split; [by right|by eexists].
      * split; [by intros [? ?]|]. by intros [?|?].
  - intros c. unfold Py.get. destruct (table !! c) as [v|] eqn:Ev.
    + by apply (Hrange c).
    + unfold Py.len. lia.
  - intros c Hc. unfold Py.get. rewrite Htbl.
    destruct (last_occ _ c) as [k|] eqn:Ek.
    + apply last_occ_Some in Ek as [Ek _].
      apply lookup_take_Some in Ek as [Ek _].
      destruct Hc. by eapply list_elem_of_lookup_2.
    + by destruct (decide (c = final)).
Qed.

Lemma build_shift_table_keys_witness :
  Py.str "EXAMPLE" ≠ [] ∧
  ∃ table, build_shift_table (Py.str "EXAMPLE") = Ok table
    ∧ dom table = list_to_set (Py.str "EXAMPLE")
    ∧ (∀ c v, table !! c = Some v → 1 ≤ v ≤ Py.len (Py.str "EXAMPLE"))
    ∧ (∀ c, 1 ≤ Py.get table c (Py.len (Py.str "EXAMPLE"))
            ≤ Py.len (Py.str "EXAMPLE"))
    ∧ (∀ c, c ∉ Py.str "EXAMPLE" →
            Py.get table c (Py.len (Py.str "EXAMPLE"))
            = Py.len (Py.str "EXAMPLE")).
Proof.
  split; [done|]. by apply (build_shift_table_keys (Py.str "EXAMPLE")).
Defined.

(** X11: the shift that boyer_moore_search takes after a mismatch skips no
    occurrence: with the pattern aligned at offset i and c the text unit
    under the last pattern position, the pattern occurs at no offset
    strictly between i and i + shift_table.get(c, len(pattern)). *)
Theorem shift_skips_no_occurrence (text pattern : list Z)
    (Hne : pattern ≠ []) :
  ∃ table, build_shift_table pattern = Ok table
    ∧ ∀ (i d : nat) (c : Z),
        text !! (i + length pattern - 1)%nat = Some c →
        (0 < d)%nat →
        Z.of_nat d < Py.get table c (Py.len pattern) →
        ¬ occurs_at text pattern (i + d).
Proof.
  destruct (last_is_Some pattern Hne) as [final Hfinal].
  destruct (build_shift_table_lookup pattern final Hfinal)
    as (table & Hrun & Htbl).
  exists table. split; [done|]. intros i d c Hc Hd Hshift.
  rewrite (shift_get pattern final table c Htbl) in Hshift.
  destruct (shift_safe text pattern i c Hne Hc) as [_ Hsafe].
  by apply Hsafe.
Qed.

Lemma shift_skips_no_occurrence_witness :
  Py.str "EXAMPLE" ≠ [] ∧
  ∃ table, build_shift_table (Py.str "EXAMPLE") = Ok table
    ∧ ∀ (i d : nat) (c : Z),
        Py.str "HERE IS A SIMPLE EXAMPLE"
          !! (i + length (Py.str "EXAMPLE") - 1)%nat = Some c →
        (0 < d)%nat →
        Z.of_nat d < Py.get table c (Py.len (Py.str "EXAMPLE")) →
        ¬ occurs_at (Py.str "HERE IS A SIMPLE EXAMPLE") (Py.str "EXAMPLE")
            (i + d).
Proof.
  split; [done|].
  by apply (shift_skips_no_occurrence (Py.str "HERE IS A SIMPLE EXAMPLE")
              (Py.str "EXAMPLE")).
Defined.

(** ** More on the three searches *)

(** X5: when the text starts with the non-empty pattern, and so when the
    text is the pattern, the three searches return 0. *)
Theorem searches_find_prefix (pattern rest : list Z) (Hne : pattern ≠ []) :
  boyer_moore_search (pattern ++ rest) pattern = Ok 0
  ∧ kmp_search (pattern ++ rest) pattern = Ok 0
  ∧ rabin_karp_search (pattern ++ rest) pattern = Ok 0.
Proof.
  assert (∀ r, first_match (pattern ++ rest) pattern r → r = 0) as Hzero.
  { assert (occurs_at (pattern ++ rest) pattern 0) as Hocc
      by by exists [], rest.
    intros r [(Hr & _ & Hmin)|[_ Hnone]]; [|by destruct (Hnone 0%nat)].
    destruct (decide (r = 0)); [done|].
    destruct (Hmin 0%nat); [lia|done]. }
  destruct (boyer_moore_search_correct (pattern ++ rest) pattern Hne)
    as (r1 & -> & ->%Hzero).
  destruct (kmp_search_correct (pattern ++ rest) pattern Hne)
    as (r2 & -> & ->%Hzero).
  by destruct (rabin_karp_search_correct (pattern ++ rest) pattern Hne)
    as (r3 & -> & ->%Hzero).
Qed.

Lemma searches_find_prefix_witness :
  Py.str "GEEK" ≠ [] ∧
  (boyer_moore_search (Py.str "GEEK" ++ Py.str "S FOR GEEKS") (Py.str "GEEK")
     = Ok 0
   ∧ kmp_search (Py.str "GEEK" ++ Py.str "S FOR GEEKS") (Py.str "GEEK")
     = Ok 0
   ∧ rabin_karp_search (Py.str "GEEK" ++ Py.str "S FOR GEEKS")
       (Py.str "GEEK") = Ok 0).
Proof.
  split; [done|].
  by apply (searches_find_prefix (Py.str "GEEK") (Py.str "S FOR GEEKS")).
Defined.

(** ** More on compute_lps *)

(** X6: compute_lps never raises, on the empty pattern neither; it returns
    a list as long as the pattern, and entry i is between 0 and i. *)
Theorem compute_lps_bounds (pattern : list Z) :
  ∃ lps, compute_lps pattern = Ok lps
    ∧ length lps = length pattern
    ∧ ∀ i v, lps !! i = Some v → 0 ≤ v ≤ Z.of_nat i.
Proof.
  destruct (compute_lps_spec pattern) as (lps & Hrun & Hlen & Hlps).
  exists lps. split_and!; [done..|]. intros i v Hv.
  pose proof (lookup_lt_Some _ _ _ Hv) as Hi. rewrite Hlen in Hi.
  destruct (Hlps i Hi) as (b & Hb & [Hlt _] & _).
  rewrite Hv in Hb. injection Hb as ->. lia.
Qed.

(** X7: from one entry of compute_lps to the next the value grows by at
    most one. *)
Theorem compute_lps_grows_by_one (pattern : list Z) :
  ∃ lps, compute_lps pattern = Ok lps
    ∧ ∀ i u v, lps !! i = Some u → lps !! S i = Some v → v ≤ u + 1.
Proof.
  destruct (compute_lps_spec pattern) as (lps & Hrun & Hlen & Hlps).
  exists lps. split; [done|]. intros i u v Hu Hv.
  pose proof (lookup_lt_Some _ _ _ Hu) as Hi. rewrite Hlen in Hi.
  pose proof (lookup_lt_Some _ _ _ Hv) as HSi. rewrite Hlen in HSi.
  destruct (Hlps i Hi) as (b & Hb & _ & Hmax).
  destruct (Hlps (S i) HSi) as (b' & Hb' & Hbord & _).
  rewrite Hu in Hb. injection Hb as ->.
  rewrite Hv in Hb'. injection Hb' as ->.
  destruct b' as [|b']; [lia|].
  apply pborder_shrink, Hmax in Hbord. lia.
Qed.

(** X8: on a pattern of n equal units compute_lps returns
    [0, 1, ..., n-1]. *)
Theorem compute_lps_replicate (n : nat) (a : Z) :
  compute_lps (replicate n a) = Ok (Z.of_nat <$> seq 0 n).
Proof.
  destruct (compute_lps_spec (replicate n a)) as (lps & -> & Hlen & Hlps).
  rewrite length_replicate in Hlen, Hlps. f_equal.
  apply list_eq. intros i. destruct (decide (i < n)%nat) as [Hi|Hi].
  - destruct (Hlps i Hi) as (b & -> & [Hlt _] & Hmax).
    rewrite list_lookup_fmap, lookup_seq_lt by done. simpl. do 2 f_equal.
    assert (pborder (replicate n a) (S i) i) as Hbord.
    { split; [lia|]. intros q Hq. by rewrite !lookup_replicate_2 by lia. }
    apply Hmax in Hbord. lia.
  - rewrite !lookup_ge_None_2; [done|rewrite length_fmap, length_seq|]; lia.
Qed.

(** X9: on a pattern whose units are pairwise distinct compute_lps returns
    zeros only. *)
Theorem compute_lps_distinct (pattern : list Z) (Hdistinct : NoDup pattern) :
  compute_lps pattern = Ok (replicate (length pattern) 0).
Proof.
  destruct (compute_lps_spec pattern) as (lps & -> & Hlen & Hlps).
  f_equal. apply list_eq. intros i.
  destruct (decide (i < length pattern)%nat) as [Hi|Hi].
  - destruct (Hlps i Hi) as (b & -> & [Hlt Hbord] & _).
    rewrite lookup_replicate_2 by done. do 2 f_equal.
    destruct b as [|b]; [done|]. specialize (Hbord 0%nat ltac:(lia)).
    destruct (lookup_lt_is pattern 0) as [x Hx]; [lia|].
    rewrite Hx in Hbord. symmetry in Hbord.
    pose proof (NoDup_lookup _ _ _ _ Hdistinct Hx Hbord). lia.
  - rewrite !lookup_ge_None_2; [done|rewrite length_replicate|]; lia.
Qed.

Lemma compute_lps_distinct_witness :
  NoDup (Py.str "EXAMPL") ∧
  compute_lps (Py.str "EXAMPL") = Ok (replicate (length (Py.str "EXAMPL")) 0).
Proof.
  assert (NoDup (Py.str "EXAMPL")) as H
    by (apply (bool_decide_unpack _); vm_compute; exact I).
  split; [exact H|]. exact (compute_lps_distinct (Py.str "EXAMPL") H).
Defined.

(** ** More on polynomial_hash *)

Lemma poly_val_horner (base : Z) (s : list Z) :
  poly_val base s = foldl (fun acc c => acc * base + Py.ord c) 0 s.
Proof.
  induction s as [|c s IH] using rev_ind; [done|].
  by rewrite poly_val_snoc, foldl_app, IH.
Qed.

Lemma poly_val_app (base : Z) (s t : list Z) :
  poly_val base (s ++ t)
  = poly_val base s * base ^ Py.len t + poly_val base t.
Proof.
  induction s as [|c s IH]; simpl; [lia|].
  rewrite IH. unfold Py.len. rewrite length_app, Nat2Z.inj_add.
  rewrite Z.pow_add_r by lia. lia.
Qed.

(** X12: for a positive modulus, polynomial_hash is the value of the code
    points read as digits in base [base] (Horner's rule, first unit most
    significant), reduced modulo the modulus. *)
Theorem polynomial_hash_horner (s : list Z) (base modulus : Z)
    (Hmodulus : 0 < modulus) :
  polynomial_hash s base modulus
  = Ok (foldl (fun acc c => acc * base + Py.ord c) 0 s mod modulus).
Proof. rewrite <- poly_val_horner. by apply polynomial_hash_mod. Qed.

Lemma polynomial_hash_horner_witness :
  0 < 101 ∧
  polynomial_hash (Py.str "GEEK") 256 101
  = Ok (foldl (fun acc c => acc * 256 + Py.ord c) 0 (Py.str "GEEK") mod 101).
Proof.
  split; [lia|]. apply (polynomial_hash_horner (Py.str "GEEK") 256 101). lia.
Defined.

(** X13: with modulus 0, polynomial_hash raises ZeroDivisionError on every
    non-empty string; on the empty string it returns 0 for every base and
    modulus, 0 included. *)
Theorem polynomial_hash_zero_modulus (s : list Z) (base : Z) (Hne : s ≠ []) :
  polynomial_hash s base 0 = Raise ZeroDivisionError
  ∧ ∀ modulus, polynomial_hash [] base modulus = Ok 0.
Proof. split; [|done]. by destruct s. Qed.

Lemma polynomial_hash_zero_modulus_witness :
  Py.str "a" ≠ [] ∧
  (polynomial_hash (Py.str "a") 256 0 = Raise ZeroDivisionError
   ∧ ∀ modulus, polynomial_hash [] 256 modulus = Ok 0).
Proof.
  split; [done|]. by apply (polynomial_hash_zero_modulus (Py.str "a") 256).
Defined.

(** X14: for a negative modulus, polynomial_hash returns an integer in
    (modulus, 0]. *)
Theorem polynomial_hash_negative_modulus (s : list Z) (base modulus : Z)
    (Hmodulus : modulus < 0) :
  ∃ h, polynomial_hash s base modulus = Ok h ∧ modulus < h ≤ 0.
Proof.
  rewrite polynomial_hash_spec by lia. destruct s as [|c s].
  - exists 0. split; [done|lia].
  - eexists. split; [done|]. by apply Z.mod_neg_bound.
Qed.

Lemma polynomial_hash_negative_modulus_witness :
  -101 < 0 ∧
  ∃ h, polynomial_hash (Py.str "GEEK") 256 (-101) = Ok h ∧ -101 < h ≤ 0.
Proof.
  split; [lia|].
  apply (polynomial_hash_negative_modulus (Py.str "GEEK") 256 (-101)). lia.
Defined.

(** X15: for a positive modulus, the hash of a concatenation s + t is
    (hash(s) * base^len(t) + hash(t)) mod modulus. *)
Theorem polynomial_hash_app (s t : list Z) (base modulus : Z)
    (Hmodulus : 0 < modulus) :
  ∃ hs ht, polynomial_hash s base modulus = Ok hs
    ∧ polynomial_hash t base modulus = Ok ht
    ∧ polynomial_hash (s ++ t) base modulus
      = Ok ((hs * base ^ Py.len t + ht) mod modulus).
Proof.
  exists (poly_val base s mod modulus), (poly_val base t mod modulus).
  rewrite !polynomial_hash_mod by done. split_and!; [done..|]. f_equal.
  rewrite poly_val_app, mod_mul_add_idemp by lia.
  by rewrite Z.add_mod_idemp_r by lia.
Qed.

Lemma polynomial_hash_app_witness :
  0 < 101 ∧
  ∃ hs ht, polynomial_hash (Py.str "GEEKS") 256 101 = Ok hs
    ∧ polynomial_hash (Py.str " FOR") 256 101 = Ok ht
    ∧ polynomial_hash (Py.str "GEEKS" ++ Py.str " FOR") 256 101
      = Ok ((hs * 256 ^ Py.len (Py.str " FOR") + ht) mod 101).
Proof.
  split; [lia|].
  apply (polynomial_hash_app (Py.str "GEEKS") (Py.str " FOR") 256 101). lia.
Defined.

(** X16: the rolling update is right for every base and every positive
    modulus: from h, the hash of a window that starts with the unit a, the
    hash of the window that drops a and takes the unit d at its end is
    ((h - ord(a) * (base^(n-1) % modulus)) % modulus * base + ord(d))
    % modulus, n the window length. *)
Theorem polynomial_hash_roll (a d : Z) (w : list Z) (base modulus : Z)
    (Hmodulus : 0 < modulus) :
  ∃ h, polynomial_hash (a :: w) base modulus = Ok h
    ∧ polynomial_hash (w ++ [d]) base modulus
      = Ok (((h - Py.ord a * (base ^ (Py.len (a :: w) - 1) mod modulus))
               mod modulus * base + Py.ord d) mod modulus).
Proof.
  exists (poly_val base (a :: w) mod modulus).
  rewrite !polynomial_hash_mod by done. split; [done|]. f_equal.
  rewrite len_cons. replace (Py.len w + 1 - 1) with (Py.len w) by lia.
  symmetry. apply rolling_update. lia.
Qed.

Lemma polynomial_hash_roll_witness :
  0 < 101 ∧
  ∃ h, polynomial_hash (71 :: Py.str "EE") 256 101 = Ok h
    ∧ polynomial_hash (Py.str "EE" ++ [75]) 256 101
      = Ok (((h - Py.ord 71 * (256 ^ (Py.len (71 :: Py.str "EE") - 1) mod 101))
               mod 101 * 256 + Py.ord 75) mod 101).
Proof.
  split; [lia|]. apply (polynomial_hash_roll 71 75 (Py.str "EE") 256 101). lia.
Defined.
